(** * The post enrichment pipeline of [preprocess.py]

    A shallow embedding of [process_posts], [extract_metadata] and
    [get_unified_tags].  Python dicts are finite maps from strings to
    JSON values, the chain ([chain.invoke] followed by
    [json_parser.parse]) is an arbitrary stateful oracle, and the
    functions run in a small state-and-exception monad whose state
    records every use of the chain, every diagnostic printed and every
    file written in full.  The chain of the program itself, a prompt
    template in front of the completion service, is one such oracle. *)

From stdpp Require Import gmap strings list fin_maps sorting.
From Stdlib Require Import ZArith Ascii.

#[local] Set Warnings "-register-all".
#[local] Open Scope string_scope.
#[local] Open Scope list_scope.

(** ** Values *)

(** What [json.load] and [JsonOutputParser.parse] produce. *)
Inductive json : Type :=
| JNull
| JBool (b : bool)
| JInt (n : Z)
| JFloat (literal : string)
| JStr (s : string)
| JArr (items : list json)
| JObj (fields : gmap string json).

(** A post is a Python dict with string keys. *)
Abbreviation post := (gmap string json).

(** The exceptions the pipeline distinguishes; all of them are instances
    of Python's [Exception]. *)
Inductive exn : Type :=
| UnicodeDecodeError
| JSONDecodeError
| OutputParserException
| FileNotFoundError
| TypeError
| AttributeError
| OtherException (name : string).

Inductive result (A : Type) : Type :=
| Ok (a : A)
| Raised (e : exn).
Arguments Ok {A} a.
Arguments Raised {A} e.

#[global] Instance result_ret : MRet result := @Ok.
#[global] Instance result_bind : MBind result := λ A B f r,
  match r with
  | Ok a => f a
  | Raised e => Raised e
  end.

(** ** String helpers: [len], slicing, [str.count] *)

Definition newline : ascii := "010"%char.

(** [s[:n]] *)
Fixpoint str_take (n : nat) (s : string) : string :=
  match n, s with
  | S n', String c s' => String c (str_take n' s')
  | _, _ => EmptyString
  end.

(** [s.count('\n')] *)
Fixpoint count_newlines (s : string) : Z :=
  match s with
  | EmptyString => 0
  | String c s' =>
      ((if Ascii.eqb c newline then 1 else 0) + count_newlines s')%Z
  end.

(** The characters of a string, each as a one-character string. *)
Fixpoint str_chars (s : string) : list string :=
  match s with
  | EmptyString => []
  | String c s' => String c EmptyString :: str_chars s'
  end.

(** [c] repeated [n] times. *)
Fixpoint str_repeat (c : ascii) (n : nat) : string :=
  match n with
  | O => EmptyString
  | S n' => String c (str_repeat c n')
  end.

(** ** Dict and iteration helpers *)

(** [for x in v]: lists give their items, strings their characters and
    dicts their keys (the finite map does not record insertion order, so
    the keys come in the map's own order); anything else is not
    iterable. *)
Definition py_iter (v : json) : result (list json) :=
  match v with
  | JArr items => Ok items
  | JStr s => Ok (JStr <$> str_chars s)
  | JObj fields => Ok (JStr <$> (map_to_list fields).*1)
  | JNull | JBool _ | JInt _ | JFloat _ => Raised TypeError
  end.

(** ['text' in post] *)
Definition has_text (p : post) : Prop := is_Some (p !! "text").
#[global] Instance has_text_dec p : Decision (has_text p).
Proof. unfold has_text. apply _. Defined.

(** [post.get('tags', [])] *)
Definition get_tags (p : post) : json := default (JArr []) (p !! "tags").

(** [{**post, **metadata}]: raises [TypeError] unless [metadata] is a
    mapping; the metadata's entries win. *)
Definition merge (p : post) (metadata : json) : result post :=
  match metadata with
  | JObj fields => Ok (fields ∪ p)
  | JNull | JBool _ | JInt _ | JFloat _ | JStr _ | JArr _ => Raised TypeError
  end.

Fixpoint mapM_result {A B} (f : A → result B) (l : list A) : result (list B) :=
  match l with
  | [] => Ok []
  | x :: xs => y ← f x; ys ← mapM_result f xs; Ok (y :: ys)
  end.

(** ** Tag collection (lines 86-90 of [get_unified_tags]) *)

Definition as_tag (v : json) : result string :=
  match v with
  | JStr s => Ok s
  | JNull | JBool _ | JInt _ | JFloat _ | JArr _ | JObj _ => Raised TypeError
  end.

(** The strings [unique_tags.update(post.get('tags', []))] adds.  An
    element that is not a string makes the prelude of [get_unified_tags]
    raise [TypeError] before the service is called: in [update] when it
    is unhashable, otherwise in [sorted] or in [', '.join]. *)
Definition tag_strings (p : post) : result (list string) :=
  items ← py_iter (get_tags p); mapM_result as_tag items.

Fixpoint collect_tags (unique_tags : gset string) (posts : list post)
  : result (gset string) :=
  match posts with
  | [] => Ok unique_tags
  | p :: rest =>
      ts ← tag_strings p; collect_tags (unique_tags ∪ list_to_set ts) rest
  end.

Definition str_le (a b : string) : Prop := String.leb a b = true.
#[global] Instance str_le_dec a b : Decision (str_le a b).
Proof. unfold str_le. apply _. Defined.

(** [', '.join(sorted(unique_tags))] *)
Definition unique_tags_list (unique_tags : gset string) : string :=
  String.concat ", " (merge_sort str_le (elements unique_tags)).

(** [{tag: tag for tag in unique_tags}] *)
Definition identity_mapping (unique_tags : gset string) : gmap string json :=
  set_to_map (λ tag, (tag, JStr tag)) unique_tags.

(** ** Tag rewrite (lines 34-36 of [process_posts]) *)

(** [unified_tags.get(tag, tag)] *)
Definition unified_get (unified_tags : json) (tag : json) : result json :=
  match unified_tags with
  | JObj fields =>
      match tag with
      | JStr s => Ok (default tag (fields !! s))
      | JArr _ | JObj _ => Raised TypeError
      | JNull | JBool _ | JInt _ | JFloat _ => Ok tag
      end
  | JNull | JBool _ | JInt _ | JFloat _ | JStr _ | JArr _ =>
      Raised AttributeError
  end.

Definition rewrite_post (unified_tags : json) (p : post) : result post :=
  current_tags ← py_iter (get_tags p);
  new_tags ← mapM_result (unified_get unified_tags) current_tags;
  Ok (<["tags" := JArr new_tags]> p).

(** ** Metadata fallback *)

Definition MAX_LENGTH : nat := 2000.

(** Lines 47-49: the text that the rest of [extract_metadata] works on. *)
Definition truncate (text : string) : string :=
  if Nat.ltb MAX_LENGTH (String.length text)
  then str_take MAX_LENGTH text +:+ "..."
  else text.

Definition fallback_record (text : string) : gmap string json :=
  <["line_count" := JInt (count_newlines text + 1)]>
    (<["language" := JStr "Unknown"]> (<["tags" := JArr []]> ∅)).

(** ** The world: completion service, console, file system *)

(** One use of the chain: [chain.invoke({"post": post})] or
    [chain.invoke({"tags": unique_tags_list})]. *)
Inductive request : Type :=
| ExtractRequest (post_text : string)
| UnifyRequest (tags : string).

(** What [chain.invoke] followed by [json_parser.parse] ends in: a parsed
    JSON value, or an exception ([OutputParserException] from the parser,
    anything from the call). *)
Inductive reply : Type :=
| Parsed (v : json)
| Failed (e : exn).

(** The lines the program prints. *)
Inductive diagnostic : Type :=
| UnicodeDecodeDiagnostic
| JSONDecodeDiagnostic
| MetadataParseDiagnostic (excerpt : string) (e : exn)
| MetadataUnexpectedDiagnostic (e : exn)
| UnifyParseDiagnostic (e : exn)
| UnifyUnexpectedDiagnostic (e : exn)
| SavedDiagnostic (count : nat) (path : string)
| SaveErrorDiagnostic (e : exn).

Section Pipeline.

(** The state of the completion service and how it answers. *)
Context {S : Type}.
Variable service : request → S → reply * S.

(** [ftfy.fix_text] on the value of the [text] field: a string, or an
    exception. *)
Variable fix_text : json → result string.

(** [open] and [json.load] on a path; [open] and [json.dump] on a path
    ([None]: the dump completed; [Some e]: [open] or [json.dump] raised
    [e], and what is then left at the path is not modelled). *)
Variable json_load : string → result (list post).
Variable json_dump : string → list post → option exn.

Record world : Type := World {
  svc : S;
  calls : list request;
  stdout : list diagnostic;
  written : list (string * list post)
}.

Definition M (A : Type) : Type := world → result A * world.

Definition ret {A} (a : A) : M A := λ w, (Ok a, w).
Definition raise {A} (e : exn) : M A := λ w, (Raised e, w).
Definition bind {A B} (c : M A) (k : A → M B) : M B := λ w,
  match c w with
  | (Ok a, w') => k a w'
  | (Raised e, w') => (Raised e, w')
  end.
Definition lift {A} (r : result A) : M A := λ w, (r, w).

Notation "'let*' x := c 'in' k" := (bind c (λ x, k))
  (at level 10, x name, c at level 100, k at level 200).

Definition print (d : diagnostic) : M unit := λ w,
  (Ok tt, World (svc w) (calls w) (stdout w ++ [d]) (written w)).

Definition invoke (req : request) : M reply := λ w,
  let '(r, s) := service req (svc w) in
  (Ok r, World s (calls w ++ [req]) (stdout w) (written w)).

(** The world after one service call that left the service in [st]. *)
Definition called (req : request) (st : S) (w : world) : world :=
  World st (calls w ++ [req]) (stdout w) (written w).

Definition write_file (path : string) (content : list post) : M unit := λ w,
  (Ok tt, World (svc w) (calls w) (stdout w) (written w ++ [(path, content)])).

(** ** [extract_metadata] *)

Definition extract_metadata (post_text : string) : M json :=
  let post_text := truncate post_text in
  let* r := invoke (ExtractRequest post_text) in
  match r with
  | Parsed v => ret v
  | Failed OutputParserException =>
      let* _ := print (MetadataParseDiagnostic (str_take 200 post_text)
                         OutputParserException) in
      ret (JObj (fallback_record post_text))
  | Failed e =>
      let* _ := print (MetadataUnexpectedDiagnostic e) in
      ret (JObj (fallback_record post_text))
  end.

(** ** [get_unified_tags] *)

Definition get_unified_tags (posts_with_metadata : list post) : M json :=
  let* unique_tags := lift (collect_tags ∅ posts_with_metadata) in
  let* r := invoke (UnifyRequest (unique_tags_list unique_tags)) in
  match r with
  | Parsed v => ret v
  | Failed OutputParserException =>
      let* _ := print (UnifyParseDiagnostic OutputParserException) in
      ret (JObj (identity_mapping unique_tags))
  | Failed e =>
      let* _ := print (UnifyUnexpectedDiagnostic e) in
      ret (JObj (identity_mapping unique_tags))
  end.

(** ** [process_posts] *)

(** The body of the first loop (lines 22-30) for one post; [None] is
    [continue]. *)
Definition enrich_post (p : post) : M (option post) :=
  match p !! "text" with
  | None => ret None
  | Some v =>
      let* fixed := lift (fix_text v) in
      let p := <["text" := JStr fixed]> p in
      let* metadata := extract_metadata fixed in
      let* post_with_metadata := lift (merge p metadata) in
      ret (Some post_with_metadata)
  end.

(** For the input post [p], the repair gave [text] and the extraction
    returned the mapping [fields], in some state of the world. *)
Definition extracted_for (p : post) (text : string)
    (fields : gmap string json) : Prop :=
  ∃ v w1 w2,
    p !! "text" = Some v
    ∧ fix_text v = Ok text
    ∧ extract_metadata text w1 = (Ok (JObj fields), w2).

(** The first loop (lines 21-30), from the posts enriched so far. *)
Fixpoint enrich_loop (posts : list post) (enriched_posts : list post)
  : M (list post) :=
  match posts with
  | [] => ret enriched_posts
  | p :: rest =>
      let* r := enrich_post p in
      match r with
      | None => enrich_loop rest enriched_posts
      | Some post_with_metadata =>
          enrich_loop rest (enriched_posts ++ [post_with_metadata])
      end
  end.

(** Lines 38-43.  [written] records the completed dumps only. *)
Definition save (path : string) (enriched_posts : list post) : M unit :=
  match json_dump path enriched_posts with
  | None =>
      let* _ := write_file path enriched_posts in
      print (SavedDiagnostic (length enriched_posts) path)
  | Some e => print (SaveErrorDiagnostic e)
  end.

(** Lines 21-36: the enriched batch that is handed to [json.dump]. *)
Definition enrich_batch (posts : list post) : M (list post) :=
  let* enriched_posts := enrich_loop posts [] in
  let* unified_tags := get_unified_tags enriched_posts in
  lift (mapM_result (rewrite_post unified_tags) enriched_posts).

Definition process_posts (raw_file_path processed_file_path : string)
  : M unit :=
  match json_load raw_file_path with
  | Raised UnicodeDecodeError => print UnicodeDecodeDiagnostic
  | Raised JSONDecodeError => print JSONDecodeDiagnostic
  | Raised e => raise e
  | Ok posts =>
      let* enriched_posts := enrich_batch posts in
      save processed_file_path enriched_posts
  end.

End Pipeline.

Arguments World {S} svc calls stdout written.

(** ** The chain: prompt template, completion service, parser *)

(** [chain = pt | llm]: [chain.invoke(input)] first fills the prompt
    template with the input and then sends the prompt to the completion
    service; [json_parser.parse] reads the answer.  The fields of a
    template are those of Python's [str.format] syntax. *)

(** The double quote character, as a string. *)
Definition dq : string := String "034"%char EmptyString.

(** The template of [extract_metadata] (lines 51-60): the text before
    its one field, the field, and the text after it. *)
Definition extract_intro : string :=
  "
    You are given a LinkedIn post. You need to extract number of lines, language of the post and tags.
    1. Return a valid JSON. No preamble. 
    2. JSON object should have exactly three keys: line_count, language and tags. 
    3. tags is an array of text tags. Extract maximum two tags.
    4. Language should be English or Hinglish (Hinglish means Hindi + English)
    
    Here is the actual post on which you need to perform this task:  
    ".

Definition extract_outro : string :=
  "
    ".

Definition extract_template : string :=
  extract_intro +:+ "{post}" +:+ extract_outro.

(** The template of [get_unified_tags] (lines 92-105). *)
Definition unify_template : string :=
  "
    I will give you a list of tags. You need to unify tags with the following requirements:
    1. Tags are unified and merged to create a shorter list.
       Example 1: "
    +:+ dq +:+ "Jobseekers"
    +:+ dq +:+ ", "
    +:+ dq +:+ "Job Hunting"
    +:+ dq +:+ " → "
    +:+ dq +:+ "Job Search"
    +:+ dq +:+ "
       Example 2: "
    +:+ dq +:+ "Motivation"
    +:+ dq +:+ ", "
    +:+ dq +:+ "Inspiration"
    +:+ dq +:+ " → "
    +:+ dq +:+ "Motivation"
    +:+ dq +:+ "
       Example 3: "
    +:+ dq +:+ "Personal Growth"
    +:+ dq +:+ ", "
    +:+ dq +:+ "Self Improvement"
    +:+ dq +:+ " → "
    +:+ dq +:+ "Self Improvement"
    +:+ dq +:+ "
       Example 4: "
    +:+ dq +:+ "Scam Alert"
    +:+ dq +:+ ", "
    +:+ dq +:+ "Job Scam"
    +:+ dq +:+ " → "
    +:+ dq +:+ "Scams"
    +:+ dq +:+ "
    2. Use title case. Example: "
    +:+ dq +:+ "Job Search"
    +:+ dq +:+ ", "
    +:+ dq +:+ "Motivation"
    +:+ dq +:+ "
    3. Output must be a JSON object. No preamble.
    4. Format: {"
    +:+ dq +:+ "OldTag1"
    +:+ dq +:+ ": "
    +:+ dq +:+ "UnifiedTag"
    +:+ dq +:+ ", "
    +:+ dq +:+ "OldTag2"
    +:+ dq +:+ ": "
    +:+ dq +:+ "UnifiedTag"
    +:+ dq +:+ ", ...}

    Here is the list of tags:
    {tags}
    ".

(** A parsed template: literal characters and replacement fields
    [{name!conversion:spec}]. *)
Inductive piece : Type :=
| Text (c : ascii)
| Field (name : string) (conversion : option ascii) (spec : string).

(** Where the scan of a format string stands. *)
Inductive scanner : Type :=
| Outside
| AfterOpen
| AfterClose
| InName (name : string)
| InIndex (name : string)
| ExpectConversion (name : string)
| AfterConversion (name : string) (conversion : ascii)
| InSpec (name : string) (conversion : option ascii) (depth : nat)
    (spec : string).

Definition KeyError : exn := OtherException "KeyError".
Definition ValueError : exn := OtherException "ValueError".

Definition snoc_char (s : string) (c : ascii) : string :=
  s +:+ String c EmptyString.

(** One character of a field name: the name ends at [:], [!] or the
    closing brace, and an index in brackets is skipped whole. *)
Definition name_step (name : string) (c : ascii)
  : result (option piece * scanner) :=
  if Ascii.eqb c "{" then Raised ValueError
  else if Ascii.eqb c "[" then Ok (None, InIndex (snoc_char name c))
  else if Ascii.eqb c "}" then Ok (Some (Field name None ""), Outside)
  else if Ascii.eqb c ":" then Ok (None, InSpec name None 0 "")
  else if Ascii.eqb c "!" then Ok (None, ExpectConversion name)
  else Ok (None, InName (snoc_char name c)).

Definition scan_step (st : scanner) (c : ascii)
  : result (option piece * scanner) :=
  match st with
  | Outside =>
      if Ascii.eqb c "{" then Ok (None, AfterOpen)
      else if Ascii.eqb c "}" then Ok (None, AfterClose)
      else Ok (Some (Text c), Outside)
  | AfterOpen =>
      if Ascii.eqb c "{" then Ok (Some (Text c), Outside)
      else name_step "" c
  | AfterClose =>
      if Ascii.eqb c "}" then Ok (Some (Text c), Outside)
      else Raised ValueError
  | InName name => name_step name c
  | InIndex name =>
      if Ascii.eqb c "]" then Ok (None, InName (snoc_char name c))
      else Ok (None, InIndex (snoc_char name c))
  | ExpectConversion name => Ok (None, AfterConversion name c)
  | AfterConversion name conversion =>
      if Ascii.eqb c "}" then
        Ok (Some (Field name (Some conversion) ""), Outside)
      else if Ascii.eqb c ":" then Ok (None, InSpec name (Some conversion) 0 "")
      else Raised ValueError
  | InSpec name conversion depth spec =>
      if Ascii.eqb c "{" then
        Ok (None, InSpec name conversion (Datatypes.S depth) (snoc_char spec c))
      else if Ascii.eqb c "}" then
        match depth with
        | O => Ok (Some (Field name conversion spec), Outside)
        | Datatypes.S depth' =>
            Ok (None, InSpec name conversion depth' (snoc_char spec c))
        end
      else Ok (None, InSpec name conversion depth (snoc_char spec c))
  end.

(** The scan of the rest of a format string; a brace left open or lone
    is a [ValueError]. *)
Fixpoint scan (st : scanner) (s : string) : result (list piece) :=
  match s with
  | EmptyString =>
      match st with
      | Outside => Ok []
      | AfterOpen | AfterClose | InName _ | InIndex _ | ExpectConversion _
      | AfterConversion _ _ | InSpec _ _ _ _ => Raised ValueError
      end
  | String c rest =>
      step ← scan_step st c;
      pieces ← scan step.2 rest;
      Ok (match step.1 with
          | Some p => p :: pieces
          | None => pieces
          end)
  end.

(** [PromptTemplate.from_template(template)] (lines 62 and 107). *)
Definition from_template (template : string) : result (list piece) :=
  scan Outside template.

(** The input variables of a template: the names of its fields. *)
Fixpoint template_variables (pt : list piece) : list string :=
  match pt with
  | [] => []
  | Text _ :: rest => template_variables rest
  | Field name _ _ :: rest => name :: template_variables rest
  end.

Section Chain.

(** [format(value, spec)] with a conversion or a non-empty format
    specification; neither template of this program reaches it. *)
Variable format_value : option ascii → string → string → result string.

(** The completion service with the parser behind it: what the model
    answers to a prompt, parsed, or the exception of the call or of the
    parsing; its state is arbitrary. *)
Context {L : Type}.
Variable llm : string → L → reply * L.

Fixpoint render (pt : list piece) (input : gmap string string)
  : result string :=
  match pt with
  | [] => Ok EmptyString
  | Text c :: rest => tail ← render rest input; Ok (String c tail)
  | Field name conversion spec :: rest =>
      let value := default EmptyString (input !! name) in
      shown ← match conversion, spec with
               | None, EmptyString => Ok value
               | _, _ => format_value conversion spec value
               end;
      tail ← render rest input;
      Ok (shown +:+ tail)
  end.

(** The prompt stage of [chain.invoke(input)]: an input that lacks a
    variable of the template is a [KeyError]; otherwise the fields are
    replaced by their values. *)
Definition pt_invoke (pt : list piece) (input : gmap string string)
  : result string :=
  if decide (Forall (λ name, is_Some (input !! name)) (template_variables pt))
  then render pt input
  else Raised KeyError.

(** The template and the input of the two uses of the chain (lines 67
    and 112). *)
Definition chain_template (req : request) : string :=
  match req with
  | ExtractRequest _ => extract_template
  | UnifyRequest _ => unify_template
  end.

Definition chain_input (req : request) : gmap string string :=
  match req with
  | ExtractRequest post_text => {["post" := post_text]}
  | UnifyRequest tags => {["tags" := tags]}
  end.

(** The prompt of a request.  (Both templates of the program parse, so
    [from_template], which the program calls before its [try] block,
    does not raise here.) *)
Definition format_prompt (req : request) : result string :=
  pt ← from_template (chain_template req); pt_invoke pt (chain_input req).

(** [chain.invoke] and [json_parser.parse] as a service for the
    pipeline.  Its state is the state of the completion service and the
    prompts that have reached it; a prompt that cannot be formed raises
    before the completion service is called. *)
Definition chain (req : request) (st : L * list string)
  : reply * (L * list string) :=
  match format_prompt req with
  | Raised e => (Failed e, st)
  | Ok prompt =>
      let '(r, l) := llm prompt st.1 in (r, (l, st.2 ++ [prompt]))
  end.

(** The prompts that have reached the completion service. *)
Definition prompts_sent (w : @world (L * list string)) : list string :=
  (svc w).2.

End Chain.

(** ** Concrete collaborators and batches *)

Module Scenario.

(** A service that answers from a script, one reply per call, and is
    unreachable once the script is used up. *)
Definition scripted (req : request) (script : list reply)
  : reply * list reply :=
  match script with
  | [] => (Failed (OtherException "ConnectionError"), [])
  | r :: rest => (r, rest)
  end.

(** A repair that leaves clean strings as they are and rejects other
    values. *)
Definition repair (v : json) : result string :=
  match v with
  | JStr s => Ok s
  | JNull | JBool _ | JInt _ | JFloat _ | JArr _ | JObj _ => Raised TypeError
  end.

Definition raw_path : string := "data/raw_posts.json".
Definition processed_path : string := "data/processed_posts.json".

(** A file system holding one batch at the default input path. *)
Definition disk (batch : list post) (path : string) : result (list post) :=
  if String.eqb path raw_path then Ok batch else Raised FileNotFoundError.

(** An input file that is not valid UTF-8. *)
Definition undecodable_disk (path : string) : result (list post) :=
  Raised UnicodeDecodeError.

Definition writable (path : string) (content : list post) : option exn := None.

Definition start (script : list reply) : world :=
  World script [] [] [].

Definition run (script : list reply) (batch : list post)
  : result unit * world :=
  process_posts scripted repair (disk batch) writable
    raw_path processed_path (start script).

(** 2000 letters followed by one line break. *)
Definition long_text : string :=
  str_repeat "a"%char 2000 +:+ String newline EmptyString.

Definition authored_post : post :=
  <["text" := JStr "Great tips on job search!"]>
    (<["author" := JStr "Asha"]> ∅).

Definition textless_post : post := <["author" := JStr "Ravi"]> ∅.

(** A reply carrying the three expected keys and one more. *)
Definition overreaching_metadata : json :=
  JObj (<["line_count" := JInt 1]>
          (<["language" := JStr "English"]>
             (<["tags" := JArr [JStr "Job Search"]]>
                (<["author" := JStr "Model"]> ∅)))).

Definition good_metadata (tag : string) : json :=
  JObj (<["line_count" := JInt 1]>
          (<["language" := JStr "English"]>
             (<["tags" := JArr [JStr tag]]> ∅))).

(** An enriched post whose [tags] is [null]. *)
Definition null_tags_post : post :=
  <["text" := JStr "hello"]> (<["tags" := JNull]> ∅).

(** [authored_post] after a successful extraction with one tag. *)
Definition enriched_authored_post (tag : string) : post :=
  <["line_count" := JInt 1]>
    (<["language" := JStr "English"]>
       (<["tags" := JArr [JStr tag]]> authored_post)).

Definition extract_call : request :=
  ExtractRequest "Great tips on job search!".

(** Two extractions that tag the posts differently, and a unification
    that merges the two tags. *)
Definition job_search_mapping : gmap string json :=
  <["Jobseekers" := JStr "Job Search"]>
    (<["Job Hunting" := JStr "Job Search"]> ∅).

Definition job_search_script : list reply :=
  [Parsed (good_metadata "Jobseekers"); Parsed (good_metadata "Job Hunting");
   Parsed (JObj job_search_mapping)].

(** A service that always answers well: one tag per post, and a mapping
    for the unification; its state counts the calls. *)
Definition canned (req : request) (count : nat) : reply * nat :=
  match req with
  | ExtractRequest _ => (Parsed (good_metadata "Career"), Datatypes.S count)
  | UnifyRequest _ =>
      (Parsed (JObj (<["Career" := JStr "Careers"]> ∅)), Datatypes.S count)
  end.

(** An output location that cannot be written. *)
Definition read_only (path : string) (content : list post) : option exn :=
  Some (OtherException "PermissionError").

(** A post whose [text] is a number, which [repair] rejects. *)
Definition numeric_text_post : post := <["text" := JInt 5]> ∅.

(** An enriched post with two tags. *)
Definition two_tags_post : post :=
  <["text" := JStr "hello"]>
    (<["tags" := JArr [JStr "Jobseekers"; JStr "Job Hunting"]]> ∅).

(** A completion service that answers from a script, whatever the
    prompt, and a [format] that shows a value as it is. *)
Definition scripted_llm (prompt : string) (script : list reply)
  : reply * list reply :=
  match script with
  | [] => (Failed (OtherException "ConnectionError"), [])
  | r :: rest => (r, rest)
  end.

Definition plain_format (conversion : option ascii) (spec value : string)
  : result string := Ok value.

(** The start of a run of the program's own chain: the script of the
    completion service, and no prompt sent yet. *)
Definition chain_start (script : list reply)
  : @world (list reply * list string) :=
  World (script, []) [] [] [].

End Scenario.

(** * Properties *)

(** ** Strings *)

Lemma count_newlines_app (a b : string) :
  count_newlines (a +:+ b) = (count_newlines a + count_newlines b)%Z.
Proof.
  induction a as [|c a IH]; simpl.
  - reflexivity.
  - rewrite IH. lia.
Qed.

Lemma truncate_short (text : string) :
  (String.length text ≤ MAX_LENGTH)%nat → truncate text = text.
Proof.
  intros Hlen. unfold truncate.
  destruct (Nat.ltb_spec MAX_LENGTH (String.length text)); [lia | reflexivity].
Qed.

Lemma truncate_long (text : string) :
  (MAX_LENGTH < String.length text)%nat →
  truncate text = str_take MAX_LENGTH text +:+ "...".
Proof.
  intros Hlen. unfold truncate.
  destruct (Nat.ltb_spec MAX_LENGTH (String.length text)); [reflexivity | lia].
Qed.

Lemma count_newlines_truncate_long (text : string) :
  (MAX_LENGTH < String.length text)%nat →
  count_newlines (truncate text) = count_newlines (str_take MAX_LENGTH text).
Proof.
  intros Hlen. rewrite truncate_long by assumption.
  rewrite count_newlines_app. simpl. lia.
Qed.

(** ** More on slicing and counting *)

Lemma str_take_length (n : nat) (s : string) :
  String.length (str_take n s) = Nat.min n (String.length s).
Proof.
  revert s. induction n as [|n IH]; intros [|c s]; simpl; try reflexivity.
  rewrite IH. reflexivity.
Qed.

Lemma str_length_app (a b : string) :
  String.length (a +:+ b) = (String.length a + String.length b)%nat.
Proof. induction a as [|c a IH]; simpl; [reflexivity | rewrite IH; reflexivity]. Qed.

Lemma str_take_app_prefix (n : nat) (s t : string) :
  (n ≤ String.length s)%nat → str_take n (str_take n s +:+ t) = str_take n s.
Proof.
  revert s. induction n as [|n IH]; intros [|c s] Hlen; simpl in *;
    try reflexivity; try lia.
  rewrite IH by lia. reflexivity.
Qed.

Lemma count_newlines_bounds (s : string) :
  (0 ≤ count_newlines s ≤ Z.of_nat (String.length s))%Z.
Proof.
  induction s as [|c s IH]; simpl; [lia |].
  destruct (Ascii.eqb c newline); lia.
Qed.

Lemma count_newlines_take_le (n : nat) (s : string) :
  (count_newlines (str_take n s) ≤ count_newlines s)%Z.
Proof.
  revert s. induction n as [|n IH]; intros [|c s]; simpl; try lia.
  - pose proof (count_newlines_bounds s). destruct (Ascii.eqb c newline); lia.
  - specialize (IH s). lia.
Qed.

Lemma truncate_length (text : string) :
  (String.length (truncate text) ≤ MAX_LENGTH + 3)%nat.
Proof.
  unfold truncate.
  destruct (Nat.ltb_spec MAX_LENGTH (String.length text)) as [Hlong|Hshort].
  - rewrite str_length_app, str_take_length.
    change (String.length "...") with 3%nat. lia.
  - lia.
Qed.

Lemma truncate_prefix (text : string) :
  str_take MAX_LENGTH (truncate text) = str_take MAX_LENGTH text.
Proof.
  unfold truncate.
  destruct (Nat.ltb_spec MAX_LENGTH (String.length text)) as [Hlong|Hshort].
  - apply str_take_app_prefix. lia.
  - reflexivity.
Qed.

Lemma count_newlines_truncate (text : string) :
  (0 ≤ count_newlines (truncate text) ≤ count_newlines text)%Z
  ∧ (count_newlines (truncate text) ≤ Z.of_nat MAX_LENGTH)%Z.
Proof.
  unfold truncate.
  destruct (Nat.ltb_spec MAX_LENGTH (String.length text)) as [Hlong|Hshort].
  - rewrite count_newlines_app. change (count_newlines "...") with 0%Z.
    pose proof (count_newlines_bounds (str_take MAX_LENGTH text)) as Hb.
    pose proof (count_newlines_take_le MAX_LENGTH text).
    rewrite str_take_length in Hb. lia.
  - pose proof (count_newlines_bounds text). lia.
Qed.

(** ** The fallback record *)

Lemma fallback_line_count (text : string) :
  fallback_record text !! "line_count" = Some (JInt (count_newlines text + 1)).
Proof. unfold fallback_record. apply lookup_insert_eq. Qed.

Lemma fallback_language (text : string) :
  fallback_record text !! "language" = Some (JStr "Unknown").
Proof.
  unfold fallback_record.
  rewrite lookup_insert_ne by discriminate. apply lookup_insert_eq.
Qed.

Lemma fallback_tags (text : string) :
  fallback_record text !! "tags" = Some (JArr []).
Proof.
  unfold fallback_record.
  do 2 (rewrite lookup_insert_ne by discriminate). apply lookup_insert_eq.
Qed.

Lemma fallback_other_keys (text k : string) :
  k ≠ "line_count" → k ≠ "language" → k ≠ "tags" →
  fallback_record text !! k = None.
Proof.
  intros H1 H2 H3. unfold fallback_record.
  do 3 (rewrite lookup_insert_ne by congruence). apply lookup_empty.
Qed.

(** ** Tag collection and tag rewrite *)

Lemma mapM_as_tag_ok (items : list json) (ts : list string) :
  mapM_result as_tag items = Ok ts → items = JStr <$> ts.
Proof.
  revert ts. induction items as [|v items IH]; intros ts H; simpl in H.
  - injection H as <-. reflexivity.
  - destruct v; simpl in H; try discriminate.
    destruct (mapM_result as_tag items) as [ts'|e]; simpl in H; [|discriminate].
    injection H as <-. simpl. f_equal. apply IH. reflexivity.
Qed.

Lemma mapM_as_tag_raised (items : list json) (e : exn) :
  mapM_result as_tag items = Raised e → e = TypeError.
Proof.
  induction items as [|v items IH]; intros H; simpl in H.
  - discriminate.
  - destruct v; simpl in H; try (injection H as <-; reflexivity).
    destruct (mapM_result as_tag items) as [ts'|e']; simpl in H.
    + discriminate.
    + injection H as <-. apply IH. reflexivity.
Qed.

Lemma py_iter_raised (v : json) (e : exn) :
  py_iter v = Raised e → e = TypeError.
Proof. destruct v; simpl; intros H; congruence. Qed.

Lemma tag_strings_iter (p : post) (ts : list string) :
  tag_strings p = Ok ts → py_iter (get_tags p) = Ok (JStr <$> ts).
Proof.
  unfold tag_strings. destruct (py_iter (get_tags p)) as [items|e]; simpl.
  - intros H. f_equal. apply mapM_as_tag_ok. exact H.
  - discriminate.
Qed.

Lemma tag_strings_raised (p : post) (e : exn) :
  tag_strings p = Raised e → e = TypeError.
Proof.
  unfold tag_strings.
  destruct (py_iter (get_tags p)) as [items|e'] eqn:Hiter; simpl.
  - apply mapM_as_tag_raised.
  - intros H. injection H as <-. eapply py_iter_raised. exact Hiter.
Qed.

Lemma collect_tags_ok (posts : list post) (X Y : gset string) :
  collect_tags X posts = Ok Y →
  Forall (λ p, ∃ ts, tag_strings p = Ok ts) posts.
Proof.
  revert X. induction posts as [|p posts IH]; intros X H; simpl in H.
  - constructor.
  - destruct (tag_strings p) as [ts|e] eqn:Hts; simpl in H; [|discriminate].
    constructor; [eauto | eapply IH; exact H].
Qed.

Lemma collect_tags_raised (posts : list post) (X : gset string) (e : exn) :
  collect_tags X posts = Raised e → e = TypeError.
Proof.
  revert X. induction posts as [|p posts IH]; intros X H; simpl in H.
  - discriminate.
  - destruct (tag_strings p) as [ts|e'] eqn:Hts; simpl in H.
    + eapply IH. exact H.
    + injection H as <-. eapply tag_strings_raised. exact Hts.
Qed.

(** A mapping sends a tag to its entry, or to itself when it has none. *)
Lemma unified_get_strings (fields : gmap string json) (ts : list string) :
  mapM_result (unified_get (JObj fields)) (JStr <$> ts)
  = Ok ((λ t, default (JStr t) (fields !! t)) <$> ts).
Proof.
  induction ts as [|t ts IH].
  - reflexivity.
  - rewrite !fmap_cons. cbn [mapM_result]. rewrite IH. reflexivity.
Qed.

Lemma rewrite_post_strings (fields : gmap string json) (p : post)
    (ts : list string) :
  tag_strings p = Ok ts →
  rewrite_post (JObj fields) p
  = Ok (<["tags" := JArr ((λ t, default (JStr t) (fields !! t)) <$> ts)]> p).
Proof.
  intros Hts. unfold rewrite_post.
  rewrite (tag_strings_iter _ _ Hts). simpl.
  rewrite unified_get_strings. reflexivity.
Qed.

Lemma rewrite_posts_strings (fields : gmap string json) (posts : list post) :
  Forall (λ p, ∃ ts, tag_strings p = Ok ts) posts →
  ∃ out,
    mapM_result (rewrite_post (JObj fields)) posts = Ok out
    ∧ Forall2 (λ p p', ∃ ts,
                 tag_strings p = Ok ts
                 ∧ p' = <["tags" :=
                           JArr ((λ t, default (JStr t) (fields !! t)) <$> ts)]> p)
        posts out.
Proof.
  induction 1 as [|p posts [ts Hts] _ (out & Hout & Hall)]; simpl.
  - exists []. split; [reflexivity | constructor].
  - rewrite (rewrite_post_strings _ _ _ Hts). simpl. rewrite Hout. simpl.
    eexists. split; [reflexivity |]. constructor; eauto.
Qed.

Lemma mapM_result_Forall2 {A B} (f : A → result B) (l : list A) (out : list B) :
  mapM_result f l = Ok out → Forall2 (λ x y, f x = Ok y) l out.
Proof.
  revert out. induction l as [|x l IH]; intros out H; simpl in H.
  - injection H as <-. constructor.
  - destruct (f x) as [y|e] eqn:Hx; simpl in H; [|discriminate].
    destruct (mapM_result f l) as [ys|e]; simpl in H; [|discriminate].
    injection H as <-. constructor; [exact Hx | apply IH; reflexivity].
Qed.

(** Whatever the mapping, a rewritten post differs from the post at most
    in [tags]. *)
Lemma rewrite_post_frame (u : json) (p p' : post) :
  rewrite_post u p = Ok p' → ∃ new_tags, p' = <["tags" := JArr new_tags]> p.
Proof.
  unfold rewrite_post.
  destruct (py_iter (get_tags p)) as [items|e]; simpl; [|discriminate].
  destruct (mapM_result (unified_get u) items) as [new_tags|e]; simpl;
    [|discriminate].
  intros H. injection H as <-. eauto.
Qed.

Lemma rewrite_posts_frame (u : json) (posts out : list post) :
  mapM_result (rewrite_post u) posts = Ok out →
  Forall2 (λ p p', ∃ new_tags, p' = <["tags" := JArr new_tags]> p) posts out.
Proof.
  revert out. induction posts as [|p posts IH]; intros out H; simpl in H.
  - injection H as <-. constructor.
  - destruct (rewrite_post u p) as [p'|e] eqn:Hp; simpl in H; [|discriminate].
    destruct (mapM_result (rewrite_post u) posts) as [out'|e]; simpl in H;
      [|discriminate].
    injection H as <-. constructor; [eapply rewrite_post_frame; eauto | eauto].
Qed.

Lemma identity_mapping_lookup (X : gset string) (t : string) (v : json) :
  identity_mapping X !! t = Some v → v = JStr t.
Proof.
  unfold identity_mapping. intros H.
  apply lookup_set_to_map in H.
  - destruct H as (y & _ & Hy). congruence.
  - intros y y' _ _ Heq. exact Heq.
Qed.

Lemma identity_mapping_default (X : gset string) (t : string) :
  default (JStr t) (identity_mapping X !! t) = JStr t.
Proof.
  destruct (identity_mapping X !! t) as [v|] eqn:H; simpl.
  - eapply identity_mapping_lookup. exact H.
  - reflexivity.
Qed.

Lemma identity_mapping_spec (X : gset string) (t : string) :
  identity_mapping X !! t = if decide (t ∈ X) then Some (JStr t) else None.
Proof.
  destruct (decide (t ∈ X)) as [Hin|Hout].
  - unfold identity_mapping. apply lookup_set_to_map.
    + intros y y' _ _ Heq. exact Heq.
    + exists t. split; [exact Hin | reflexivity].
  - destruct (identity_mapping X !! t) as [v|] eqn:H; [|reflexivity].
    unfold identity_mapping in H. apply lookup_set_to_map in H.
    + destruct H as (y & Hy & Heq). injection Heq as -> _. contradiction.
    + intros y y' _ _ Heq. exact Heq.
Qed.

Lemma identity_rewrite (X : gset string) (ts : list string) :
  (λ t, default (JStr t) (identity_mapping X !! t)) <$> ts = JStr <$> ts.
Proof.
  induction ts as [|t ts IH]; [reflexivity |].
  rewrite !fmap_cons, IH, identity_mapping_default. reflexivity.
Qed.

(** The collected set holds exactly the tags of the posts. *)
Lemma collect_tags_elem (posts : list post) (X Y : gset string) (t : string) :
  collect_tags X posts = Ok Y →
  t ∈ Y ↔ t ∈ X ∨ ∃ p ts, p ∈ posts ∧ tag_strings p = Ok ts ∧ t ∈ ts.
Proof.
  revert X. induction posts as [|p posts IH]; intros X H; simpl in H.
  - injection H as <-. split; [auto |].
    intros [Hin|(p & ts & Hp & _)]; [exact Hin |].
    apply elem_of_nil in Hp. contradiction.
  - destruct (tag_strings p) as [ts|e] eqn:Hts; simpl in H; [|discriminate].
    rewrite (IH _ H), elem_of_union, elem_of_list_to_set. split.
    + intros [[Hin|Hin]|(q & ts' & Hq & Hts' & Ht)].
      * left. exact Hin.
      * right. exists p, ts. split; [left | split; [exact Hts | exact Hin]].
      * right. exists q, ts'. split; [right; exact Hq | split; assumption].
    + intros [Hin|(q & ts' & Hq & Hts' & Ht)].
      * left. left. exact Hin.
      * apply elem_of_cons in Hq as [->|Hq].
        -- left. right. congruence.
        -- right. exists q, ts'. split; [exact Hq | split; assumption].
Qed.

Lemma unique_tags_list_empty : unique_tags_list ∅ = "".
Proof. unfold unique_tags_list. rewrite elements_empty. reflexivity. Qed.

(** ** The tag list of the unification request *)

#[global] Instance str_le_total : Total str_le.
Proof. intros a b. apply String.leb_total. Qed.


Lemma collect_tags_perm (posts posts' : list post) (X : gset string) :
  posts ≡ₚ posts' → collect_tags X posts = collect_tags X posts'.
Proof.
  intros Hperm. revert X.
  induction Hperm as [|p l l' _ IH|p q l|l l' l'' _ IH1 _ IH2]; intros X.
  - reflexivity.
  - simpl. destruct (tag_strings p) as [ts|e]; simpl; [apply IH | reflexivity].
  - simpl.
    destruct (tag_strings q) as [tq|eq] eqn:Hq;
      destruct (tag_strings p) as [tp|ep] eqn:Hp; simpl; try reflexivity.
    + rewrite <- !(assoc_L (∪)).
      rewrite (comm_L (∪) (list_to_set tq) (list_to_set tp)). reflexivity.
    + rewrite (tag_strings_raised _ _ Hq), (tag_strings_raised _ _ Hp).
      reflexivity.
  - rewrite IH1. apply IH2.
Qed.

(** ** More on the tag rewrite *)

Lemma mapM_result_raised {A B} (f : A → result B) (l : list A) (e : exn) :
  mapM_result f l = Raised e → ∃ x, x ∈ l ∧ f x = Raised e.
Proof.
  induction l as [|x l IH]; simpl; [discriminate |].
  destruct (f x) as [y|e'] eqn:Hx; simpl.
  - destruct (mapM_result f l) as [ys|e'']; simpl; [discriminate |].
    intros H. injection H as <-. destruct (IH eq_refl) as (x' & Hin & Hx').
    exists x'. split; [right; exact Hin | exact Hx'].
  - intros H. injection H as <-. exists x. split; [left | exact Hx].
Qed.

Lemma mapM_as_tag_strings (ts : list string) :
  mapM_result as_tag (JStr <$> ts) = Ok ts.
Proof.
  induction ts as [|t ts IH]; [reflexivity |].
  rewrite fmap_cons. cbn [mapM_result]. rewrite IH. reflexivity.
Qed.

Lemma tag_strings_of_list (p : post) (ts : list string) :
  p !! "tags" = Some (JArr (JStr <$> ts)) → tag_strings p = Ok ts.
Proof.
  intros Hp. unfold tag_strings, get_tags. rewrite Hp. simpl.
  apply mapM_as_tag_strings.
Qed.

Lemma unified_get_raised (u tag : json) (e : exn) :
  unified_get u tag = Raised e → e = TypeError ∨ e = AttributeError.
Proof.
  destruct u; simpl; try (intros H; injection H as <-; right; reflexivity).
  destruct tag; simpl; try discriminate;
    intros H; injection H as <-; left; reflexivity.
Qed.

Lemma rewrite_post_raised (u : json) (p : post) (e : exn) :
  rewrite_post u p = Raised e → e = TypeError ∨ e = AttributeError.
Proof.
  unfold rewrite_post.
  destruct (py_iter (get_tags p)) as [items|e'] eqn:Hiter; simpl.
  - destruct (mapM_result (unified_get u) items) as [new_tags|e''] eqn:Hmap;
      simpl; [discriminate |].
    intros H. injection H as <-.
    destruct (mapM_result_raised _ _ _ Hmap) as (tag & _ & Htag).
    eapply unified_get_raised. exact Htag.
  - intros H. injection H as <-. left. eapply py_iter_raised. exact Hiter.
Qed.

(** X8: the second loop keeps the records and their order, changes no
    field other than [tags], and gives each record a [tags] list with as
    many elements as the post had tags: tags that are mapped to the same
    unified tag are all kept. *)
Theorem rewrite_keeps_records_and_tag_counts
    (u : json) (posts out : list post) :
  mapM_result (rewrite_post u) posts = Ok out →
  Forall2 (λ r r', ∃ items new_tags,
             py_iter (get_tags r) = Ok items
             ∧ r' = <["tags" := JArr new_tags]> r
             ∧ length new_tags = length items
             ∧ ∀ k, k ≠ "tags" → r' !! k = r !! k)
    posts out.
Proof.
  intros H. apply mapM_result_Forall2 in H.
  eapply Forall2_impl; [exact H |].
  intros r r'. unfold rewrite_post.
  destruct (py_iter (get_tags r)) as [items|e]; simpl; [|discriminate].
  destruct (mapM_result (unified_get u) items) as [new_tags|e] eqn:Hmap;
    simpl; [|discriminate].
  intros Hr. injection Hr as <-. exists items, new_tags.
  split; [reflexivity |]. split; [reflexivity |]. split.
  - symmetry. eapply Forall2_length. apply mapM_result_Forall2. exact Hmap.
  - intros k Hk. apply lookup_insert_ne. congruence.
Qed.

(** X16: a mapping that sends each tag of a post to itself, or has no
    entry for it, leaves the post as it is. *)
Theorem self_mapping_rewrite_changes_nothing
    (fields : gmap string json) (p : post) (ts : list string) :
  p !! "tags" = Some (JArr (JStr <$> ts)) →
  (∀ t, t ∈ ts → default (JStr t) (fields !! t) = JStr t) →
  rewrite_post (JObj fields) p = Ok p.
Proof.
  intros Hp Hself.
  rewrite (rewrite_post_strings _ _ _ (tag_strings_of_list _ _ Hp)).
  f_equal.
  assert ((λ t, default (JStr t) (fields !! t)) <$> ts = JStr <$> ts) as ->.
  { clear Hp. induction ts as [|t ts IH]; [reflexivity |].
    rewrite !fmap_cons. f_equal.
    - apply Hself. left.
    - apply IH. intros t' Ht'. apply Hself. right. exact Ht'. }
  apply insert_id. exact Hp.
Qed.

Lemma rewrite_posts_non_mapping (j : json) (posts : list post) :
  (∀ fields, j ≠ JObj fields) →
  Forall (λ p, ∃ ts, tag_strings p = Ok ts) posts →
  Exists (λ p, tag_strings p ≠ Ok []) posts →
  mapM_result (rewrite_post j) posts = Raised AttributeError.
Proof.
  intros Hj Hall Hex.
  assert (∀ t, unified_get j t = Raised AttributeError) as Hget.
  { intros t. destruct j; try reflexivity. exfalso. eapply Hj. reflexivity. }
  induction Hall as [|p posts [ts Hts] Hall IH]; [inversion Hex |].
  cbn [mapM_result]. destruct ts as [|t ts].
  - assert (rewrite_post j p = Ok (<["tags" := JArr []]> p)) as ->.
    { unfold rewrite_post. rewrite (tag_strings_iter _ _ Hts). reflexivity. }
    simpl. rewrite IH; [reflexivity |].
    inversion Hex as [? ? Hhead|? ? Htail]; subst; [|exact Htail].
    contradiction.
  - assert (rewrite_post j p = Raised AttributeError) as ->.
    { unfold rewrite_post. rewrite (tag_strings_iter _ _ Hts).
      rewrite fmap_cons. cbn [mapM_result mbind result_bind].
      rewrite Hget. reflexivity. }
    reflexivity.
Qed.

Lemma rewrite_posts_untagged (u : json) (posts : list post) :
  Forall (λ p, py_iter (get_tags p) = Ok []) posts →
  mapM_result (rewrite_post u) posts
  = Ok ((λ p, <["tags" := JArr []]> p) <$> posts).
Proof.
  induction 1 as [|p posts Hp _ IH]; [reflexivity |].
  cbn [mapM_result].
  assert (rewrite_post u p = Ok (<["tags" := JArr []]> p)) as ->.
  { unfold rewrite_post. rewrite Hp. reflexivity. }
  simpl. rewrite IH. reflexivity.
Qed.

Lemma collect_tags_untagged (posts : list post) (X : gset string) :
  Forall (λ p, py_iter (get_tags p) = Ok []) posts → collect_tags X posts = Ok X.
Proof.
  induction 1 as [|p posts Hp _ IH]; [reflexivity |].
  simpl. unfold tag_strings. rewrite Hp. simpl.
  rewrite (right_id_L ∅ (∪)). exact IH.
Qed.

Lemma collect_tags_total (posts : list post) (X : gset string) :
  Forall (λ p, ∃ ts, tag_strings p = Ok ts) posts →
  ∃ Y, collect_tags X posts = Ok Y.
Proof.
  intros Hall. revert X. induction Hall as [|p posts [ts Hts] _ IH]; intros X.
  - exists X. reflexivity.
  - simpl. rewrite Hts. simpl. apply IH.
Qed.

Section PipelineProperties.

Context {S : Type}.
Variable service : request → S → reply * S.
Variable fix_text : json → result string.
Variable json_load : string → result (list post).
Variable json_dump : string → list post → option exn.

Implicit Types (w : @world S) (p r : post) (text : string).

(** *** [extract_metadata] *)

Lemma extract_metadata_parsed text w v st :
  service (ExtractRequest (truncate text)) (svc w) = (Parsed v, st) →
  extract_metadata service text w
  = (Ok v, called (ExtractRequest (truncate text)) st w).
Proof.
  intros Hsvc. unfold extract_metadata, bind, invoke. rewrite Hsvc. reflexivity.
Qed.

Lemma extract_metadata_failed text w e st :
  service (ExtractRequest (truncate text)) (svc w) = (Failed e, st) →
  ∃ d, extract_metadata service text w
       = (Ok (JObj (fallback_record (truncate text))),
          World st (calls w ++ [ExtractRequest (truncate text)])
            (stdout w ++ [d]) (written w)).
Proof.
  intros Hsvc. unfold extract_metadata, bind, invoke. rewrite Hsvc.
  destruct e; simpl; eexists; reflexivity.
Qed.

Lemma extract_metadata_total text w :
  ∃ v w', extract_metadata service text w = (Ok v, w').
Proof.
  destruct (service (ExtractRequest (truncate text)) (svc w)) as [[v|e] st] eqn:Hsvc.
  - eauto using extract_metadata_parsed.
  - destruct (extract_metadata_failed _ _ _ _ Hsvc) as [d Hd]. eauto.
Qed.

(** *** The first loop *)

Lemma enrich_post_textless p w :
  p !! "text" = None → enrich_post service fix_text p w = (Ok None, w).
Proof. intros Hp. unfold enrich_post. rewrite Hp. reflexivity. Qed.

Lemma enrich_post_merged p v text w fields w' :
  p !! "text" = Some v →
  fix_text v = Ok text →
  extract_metadata service text w = (Ok (JObj fields), w') →
  enrich_post service fix_text p w
  = (Ok (Some (fields ∪ <["text" := JStr text]> p)), w').
Proof.
  intros Hp Hfix Hmd. unfold enrich_post. rewrite Hp.
  unfold bind, lift. rewrite Hfix, Hmd. reflexivity.
Qed.

Lemma enrich_post_not_mapping p v text w j w' :
  p !! "text" = Some v →
  fix_text v = Ok text →
  extract_metadata service text w = (Ok j, w') →
  (∀ fields, j ≠ JObj fields) →
  enrich_post service fix_text p w = (Raised TypeError, w').
Proof.
  intros Hp Hfix Hmd Hj. unfold enrich_post. rewrite Hp.
  unfold bind, lift. rewrite Hfix, Hmd.
  destruct j; try reflexivity. exfalso. eapply Hj. reflexivity.
Qed.

Lemma enrich_loop_app front back acc w :
  enrich_loop service fix_text (front ++ back) acc w
  = match enrich_loop service fix_text front acc w with
    | (Ok acc', w') => enrich_loop service fix_text back acc' w'
    | (Raised e, w') => (Raised e, w')
    end.
Proof.
  revert acc w. induction front as [|p front IH]; intros acc w.
  - reflexivity.
  - simpl. unfold bind.
    destruct (enrich_post service fix_text p w) as [[[r|]|e] w1].
    + apply IH.
    + apply IH.
    + reflexivity.
Qed.

Lemma enrich_loop_step_some p rest acc w r w' :
  enrich_post service fix_text p w = (Ok (Some r), w') →
  enrich_loop service fix_text (p :: rest) acc w
  = enrich_loop service fix_text rest (acc ++ [r]) w'.
Proof. intros H. simpl. unfold bind. rewrite H. reflexivity. Qed.

Lemma enrich_loop_step_none p rest acc w w' :
  enrich_post service fix_text p w = (Ok None, w') →
  enrich_loop service fix_text (p :: rest) acc w
  = enrich_loop service fix_text rest acc w'.
Proof. intros H. simpl. unfold bind. rewrite H. reflexivity. Qed.

Lemma enrich_loop_step_raised p rest acc w e w' :
  enrich_post service fix_text p w = (Raised e, w') →
  enrich_loop service fix_text (p :: rest) acc w = (Raised e, w').
Proof. intros H. simpl. unfold bind. rewrite H. reflexivity. Qed.

(** C2 (amended): when extraction fails, the fallback record's
    [line_count] is the number of line breaks in the text the extractor
    works on, plus one; that text is the original when it has at most
    2000 characters and only its first 2000 characters (line breaks
    beyond them are not counted) when it is longer. *)
Theorem fallback_line_count_of_truncated_text text w e st :
  service (ExtractRequest (truncate text)) (svc w) = (Failed e, st) →
  ∃ record w',
    extract_metadata service text w = (Ok (JObj record), w')
    ∧ record !! "line_count"
      = Some (JInt (count_newlines (truncate text) + 1))
    ∧ ((String.length text ≤ MAX_LENGTH)%nat →
       record !! "line_count" = Some (JInt (count_newlines text + 1)))
    ∧ ((MAX_LENGTH < String.length text)%nat →
       record !! "line_count"
       = Some (JInt (count_newlines (str_take MAX_LENGTH text) + 1))).
Proof.
  intros Hsvc.
  destruct (extract_metadata_failed _ _ _ _ Hsvc) as [d Hd].
  eexists _, _. split; [exact Hd |].
  rewrite fallback_line_count. repeat split.
  - intros Hlen. rewrite truncate_short by assumption. reflexivity.
  - intros Hlen. rewrite count_newlines_truncate_long by assumption.
    reflexivity.
Qed.

(** *** [get_unified_tags] *)

Lemma get_unified_tags_collect_raised posts w e :
  collect_tags ∅ posts = Raised e →
  get_unified_tags service posts w = (Raised e, w).
Proof.
  intros H. unfold get_unified_tags, bind, lift. rewrite H. reflexivity.
Qed.

Lemma get_unified_tags_parsed posts w X v st :
  collect_tags ∅ posts = Ok X →
  service (UnifyRequest (unique_tags_list X)) (svc w) = (Parsed v, st) →
  get_unified_tags service posts w
  = (Ok v, called (UnifyRequest (unique_tags_list X)) st w).
Proof.
  intros HX Hsvc. unfold get_unified_tags, bind, lift, invoke.
  rewrite HX, Hsvc. reflexivity.
Qed.

Lemma get_unified_tags_failed posts w X e st :
  collect_tags ∅ posts = Ok X →
  service (UnifyRequest (unique_tags_list X)) (svc w) = (Failed e, st) →
  ∃ d, get_unified_tags service posts w
       = (Ok (JObj (identity_mapping X)),
          World st (calls w ++ [UnifyRequest (unique_tags_list X)])
            (stdout w ++ [d]) (written w)).
Proof.
  intros HX Hsvc. unfold get_unified_tags, bind, lift, invoke.
  rewrite HX, Hsvc. destruct e; simpl; eexists; reflexivity.
Qed.

Lemma get_unified_tags_ok_inv posts w u w' :
  get_unified_tags service posts w = (Ok u, w') →
  ∃ X, collect_tags ∅ posts = Ok X
       ∧ calls w' = calls w ++ [UnifyRequest (unique_tags_list X)]
       ∧ written w' = written w.
Proof.
  intros H. destruct (collect_tags ∅ posts) as [X|e] eqn:HX.
  - exists X. split; [reflexivity |].
    destruct (service (UnifyRequest (unique_tags_list X)) (svc w))
      as [[v|e] st] eqn:Hsvc.
    + rewrite (get_unified_tags_parsed _ _ _ _ _ HX Hsvc) in H.
      injection H as _ <-. split; reflexivity.
    + destruct (get_unified_tags_failed _ _ _ _ _ HX Hsvc) as [d Hd].
      rewrite Hd in H. injection H as _ <-. split; reflexivity.
  - rewrite (get_unified_tags_collect_raised _ _ _ HX) in H. discriminate.
Qed.

(** *** The whole batch *)

Lemma enrich_batch_inv posts w out w' :
  enrich_batch service fix_text posts w = (Ok out, w') →
  ∃ enriched w1 u,
    enrich_loop service fix_text posts [] w = (Ok enriched, w1)
    ∧ get_unified_tags service enriched w1 = (Ok u, w')
    ∧ mapM_result (rewrite_post u) enriched = Ok out.
Proof.
  unfold enrich_batch, bind, lift.
  destruct (enrich_loop service fix_text posts [] w) as [[enriched|e] w1]
    eqn:Hloop; [|discriminate].
  destruct (get_unified_tags service enriched w1) as [[u|e] w2]
    eqn:Hunify; [|discriminate].
  intros H. injection H as H <-. exists enriched, w1, u. auto.
Qed.

Lemma enrich_batch_compose posts w enriched w1 u w2 :
  enrich_loop service fix_text posts [] w = (Ok enriched, w1) →
  get_unified_tags service enriched w1 = (Ok u, w2) →
  enrich_batch service fix_text posts w
  = (mapM_result (rewrite_post u) enriched, w2).
Proof.
  intros Hloop Hunify. unfold enrich_batch, bind, lift.
  rewrite Hloop, Hunify. reflexivity.
Qed.

(** C7 (amended): [extract_metadata] returns normally for every text
    and every behaviour of the service, with the fallback record when
    the call or the parsing raised.  [get_unified_tags] returns
    normally, with the identity mapping when the call or the parsing
    raised, whenever the tags of its posts can be collected; otherwise
    it raises [TypeError] while collecting them, before the service is
    called, and that is the only exception that leaves it. *)
Theorem service_errors_are_contained :
  (∀ text w, ∃ w',
      extract_metadata service text w
      = (Ok match (service (ExtractRequest (truncate text)) (svc w)).1 with
            | Parsed v => v
            | Failed _ => JObj (fallback_record (truncate text))
            end, w'))
  ∧ (∀ posts w,
      match collect_tags ∅ posts with
      | Ok X => ∃ w',
          get_unified_tags service posts w
          = (Ok match (service (UnifyRequest (unique_tags_list X)) (svc w)).1 with
                | Parsed v => v
                | Failed _ => JObj (identity_mapping X)
                end, w')
      | Raised e =>
          e = TypeError
          ∧ get_unified_tags service posts w = (Raised TypeError, w)
      end).
Proof.
  split.
  - intros text w.
    destruct (service (ExtractRequest (truncate text)) (svc w))
      as [[v|e] st] eqn:Hsvc; simpl.
    + eexists. eapply extract_metadata_parsed. exact Hsvc.
    + destruct (extract_metadata_failed _ _ _ _ Hsvc) as [d Hd]. eauto.
  - intros posts w. destruct (collect_tags ∅ posts) as [X|e] eqn:HX.
    + destruct (service (UnifyRequest (unique_tags_list X)) (svc w))
        as [[v|e] st] eqn:Hsvc; simpl.
      * eexists. eapply get_unified_tags_parsed; eauto.
      * destruct (get_unified_tags_failed _ _ _ _ _ HX Hsvc) as [d Hd]. eauto.
    + pose proof (collect_tags_raised _ _ _ HX) as ->.
      split; [reflexivity |]. apply get_unified_tags_collect_raised. exact HX.
Qed.

(** C8: once the first loop has produced the enriched posts and
    [get_unified_tags] has returned a mapping, the rewrite succeeds on
    every post, and each tag of each post is replaced by its entry in
    the mapping, or by itself when the mapping has no entry for it. *)
Theorem tag_rewrite_is_total posts w enriched w1 fields w2 :
  enrich_loop service fix_text posts [] w = (Ok enriched, w1) →
  get_unified_tags service enriched w1 = (Ok (JObj fields), w2) →
  ∃ out,
    enrich_batch service fix_text posts w = (Ok out, w2)
    ∧ Forall2 (λ r r', ∃ ts,
                 py_iter (get_tags r) = Ok (JStr <$> ts)
                 ∧ r' = <["tags" :=
                           JArr ((λ t, default (JStr t) (fields !! t)) <$> ts)]> r)
        enriched out.
Proof.
  intros Hloop Hunify.
  destruct (get_unified_tags_ok_inv _ _ _ _ Hunify) as (X & HX & _).
  destruct (rewrite_posts_strings fields enriched (collect_tags_ok _ _ _ HX))
    as (out & Hout & Hall).
  exists out. split.
  - rewrite (enrich_batch_compose _ _ _ _ _ _ Hloop Hunify), Hout. reflexivity.
  - eapply Forall2_impl; [exact Hall |].
    intros r r' (ts & Hts & ->). exists ts. split; [|reflexivity].
    apply tag_strings_iter. exact Hts.
Qed.

(** C5: when the single unification call (or the parsing of its
    response) raises, [get_unified_tags] returns the identity mapping
    over the collected tag set, the rewrite goes through, and every
    post keeps the tag sequence it had before unification: a post whose
    [tags] is a list is left exactly as it was. *)
Theorem failed_unification_keeps_tags posts w enriched w1 X e st :
  enrich_loop service fix_text posts [] w = (Ok enriched, w1) →
  collect_tags ∅ enriched = Ok X →
  service (UnifyRequest (unique_tags_list X)) (svc w1) = (Failed e, st) →
  ∃ w2 out,
    get_unified_tags service enriched w1
    = (Ok (JObj (identity_mapping X)), w2)
    ∧ (∀ t, identity_mapping X !! t
            = if decide (t ∈ X) then Some (JStr t) else None)
    ∧ enrich_batch service fix_text posts w = (Ok out, w2)
    ∧ Forall2 (λ r r', ∃ items,
                 py_iter (get_tags r) = Ok items
                 ∧ get_tags r' = JArr items
                 ∧ r' = <["tags" := JArr items]> r
                 ∧ (∀ l, r !! "tags" = Some (JArr l) → r' = r))
        enriched out.
Proof.
  intros Hloop HX Hsvc.
  destruct (get_unified_tags_failed _ _ _ _ _ HX Hsvc) as [d Hunify].
  destruct (rewrite_posts_strings (identity_mapping X) enriched
              (collect_tags_ok _ _ _ HX)) as (out & Hout & Hall).
  eexists _, out. split; [exact Hunify |].
  split; [apply identity_mapping_spec |]. split.
  - rewrite (enrich_batch_compose _ _ _ _ _ _ Hloop Hunify), Hout. reflexivity.
  - eapply Forall2_impl; [exact Hall |].
    intros r r' (ts & Hts & ->). rewrite identity_rewrite.
    pose proof (tag_strings_iter _ _ Hts) as Hiter.
    exists (JStr <$> ts). split; [exact Hiter |]. split; [|split].
    + unfold get_tags. rewrite lookup_insert_eq. reflexivity.
    + reflexivity.
    + intros l Hl. unfold get_tags in Hiter. rewrite Hl in Hiter.
      simpl in Hiter. injection Hiter as ->. apply insert_id. exact Hl.
Qed.

(** On the empty batch the chain is used once, for the unification,
    with an empty tag list; the enriched batch is empty and, when the
    output can be written, it is written as the empty batch. *)
Lemma empty_batch_invokes_chain_once raw_file_path processed_file_path w :
  json_load raw_file_path = Ok [] →
  ∃ w1 w2,
    enrich_batch service fix_text [] w = (Ok [], w1)
    ∧ calls w1 = calls w ++ [UnifyRequest ""]
    ∧ process_posts service fix_text json_load json_dump
        raw_file_path processed_file_path w = (Ok tt, w2)
    ∧ calls w2 = calls w ++ [UnifyRequest ""]
    ∧ (json_dump processed_file_path [] = None →
       written w2 = written w ++ [(processed_file_path, [])]).
Proof.
  intros Hload.
  assert (∃ w1, enrich_batch service fix_text [] w = (Ok [], w1)
                ∧ calls w1 = calls w ++ [UnifyRequest ""]
                ∧ written w1 = written w) as (w1 & Hbatch & Hcalls & Hwritten).
  { destruct (service (UnifyRequest (unique_tags_list ∅)) (svc w))
      as [[v|e] st] eqn:Hsvc.
    - eexists. split; [|split].
      + erewrite enrich_batch_compose;
          [| reflexivity | eapply get_unified_tags_parsed; [reflexivity | exact Hsvc]].
        reflexivity.
      + simpl. rewrite unique_tags_list_empty. reflexivity.
      + reflexivity.
    - destruct (get_unified_tags_failed [] w ∅ e st eq_refl Hsvc) as [d Hd].
      eexists. split; [|split].
      + erewrite enrich_batch_compose; [| reflexivity | exact Hd]. reflexivity.
      + simpl. rewrite unique_tags_list_empty. reflexivity.
      + reflexivity. }
  unfold process_posts. rewrite Hload. unfold bind. rewrite Hbatch.
  unfold save. destruct (json_dump processed_file_path []) as [e|].
  - eexists w1, _. split; [reflexivity |]. split; [exact Hcalls |].
    split; [reflexivity |]. split; [exact Hcalls | discriminate].
  - eexists w1, _. split; [reflexivity |]. split; [exact Hcalls |].
    split; [reflexivity |]. simpl. rewrite Hcalls, Hwritten. auto.
Qed.

(** C10: a Unicode decode error or a JSON syntax error while loading
    the input is reported by one diagnostic and [process_posts] returns
    without calling the service or writing a file; any other exception
    of the load leaves [process_posts] as that exception. *)
Theorem only_decode_errors_are_caught raw_file_path processed_file_path w e :
  json_load raw_file_path = Raised e →
  (e = UnicodeDecodeError →
   process_posts service fix_text json_load json_dump
     raw_file_path processed_file_path w
   = (Ok tt, World (svc w) (calls w)
               (stdout w ++ [UnicodeDecodeDiagnostic]) (written w)))
  ∧ (e = JSONDecodeError →
     process_posts service fix_text json_load json_dump
       raw_file_path processed_file_path w
     = (Ok tt, World (svc w) (calls w)
                 (stdout w ++ [JSONDecodeDiagnostic]) (written w)))
  ∧ (e ≠ UnicodeDecodeError → e ≠ JSONDecodeError →
     process_posts service fix_text json_load json_dump
       raw_file_path processed_file_path w
     = (Raised e, w)).
Proof.
  intros Hload. unfold process_posts. rewrite Hload.
  repeat split.
  - intros ->. reflexivity.
  - intros ->. reflexivity.
  - intros H1 H2. destruct e; try reflexivity; contradiction.
Qed.

(** *** What the first loop builds *)

Lemma enrich_post_some_inv p w r w' :
  enrich_post service fix_text p w = (Ok (Some r), w') →
  has_text p
  ∧ ∃ text fields,
      extracted_for service fix_text p text fields
      ∧ r = fields ∪ <["text" := JStr text]> p.
Proof.
  unfold enrich_post. destruct (p !! "text") as [v|] eqn:Hp; [|discriminate].
  unfold bind, lift. destruct (fix_text v) as [text|e] eqn:Hfix; [|discriminate].
  destruct (extract_metadata service text w) as [[j|e] w1] eqn:Hmd;
    [|discriminate].
  destruct j; simpl; try discriminate.
  intros H. injection H as <- <-. split.
  - unfold has_text. rewrite Hp. eauto.
  - eexists text, fields. split; [|reflexivity].
    exists v, w, w1. auto.
Qed.

Lemma enrich_post_none_inv p w w' :
  enrich_post service fix_text p w = (Ok None, w') → ¬ has_text p ∧ w' = w.
Proof.
  unfold enrich_post, has_text.
  destruct (p !! "text") as [v|] eqn:Hp.
  - unfold bind, lift. destruct (fix_text v) as [text|e]; [|discriminate].
    destruct (extract_metadata service text w) as [[j|e] w1]; [|discriminate].
    destruct j; simpl; discriminate.
  - intros H. injection H as <-. split; [|reflexivity].
    intros [x Hx]. discriminate.
Qed.

Lemma enrich_loop_inv posts acc w out w' :
  enrich_loop service fix_text posts acc w = (Ok out, w') →
  ∃ new,
    out = acc ++ new
    ∧ Forall2 (λ p r, ∃ text fields,
                 extracted_for service fix_text p text fields
                 ∧ r = fields ∪ <["text" := JStr text]> p)
        (filter has_text posts) new.
Proof.
  revert acc w. induction posts as [|p posts IH]; intros acc w H.
  - simpl in H. injection H as <- _. exists []. split.
    + rewrite app_nil_r. reflexivity.
    + constructor.
  - destruct (enrich_post service fix_text p w) as [[[r|]|e] w1] eqn:Hp.
    + rewrite (enrich_loop_step_some _ _ _ _ _ _ Hp) in H.
      destruct (IH _ _ H) as (new & -> & Hall).
      destruct (enrich_post_some_inv _ _ _ _ Hp) as [Htext Hr].
      exists (r :: new). split.
      * rewrite <- app_assoc. reflexivity.
      * rewrite filter_cons_True by exact Htext. constructor; assumption.
    + rewrite (enrich_loop_step_none _ _ _ _ _ Hp) in H.
      destruct (IH _ _ H) as (new & -> & Hall).
      destruct (enrich_post_none_inv _ _ _ Hp) as [Htext _].
      exists new. split; [reflexivity |].
      rewrite filter_cons_False by exact Htext. exact Hall.
    + rewrite (enrich_loop_step_raised _ _ _ _ _ _ Hp) in H. discriminate.
Qed.

(** *** Files are written by [save] only *)

Lemma extract_metadata_written text w res w' :
  extract_metadata service text w = (res, w') → written w' = written w.
Proof.
  destruct (service (ExtractRequest (truncate text)) (svc w))
    as [[v|e] st] eqn:Hsvc.
  - rewrite (extract_metadata_parsed _ _ _ _ Hsvc).
    intros H. injection H as _ <-. reflexivity.
  - destruct (extract_metadata_failed _ _ _ _ Hsvc) as [d ->].
    intros H. injection H as _ <-. reflexivity.
Qed.

Lemma enrich_post_written p w res w' :
  enrich_post service fix_text p w = (res, w') → written w' = written w.
Proof.
  unfold enrich_post. destruct (p !! "text") as [v|].
  - unfold bind, lift. destruct (fix_text v) as [text|e].
    + destruct (extract_metadata service text w) as [[j|e] w1] eqn:Hmd.
      * apply extract_metadata_written in Hmd.
        destruct (merge (<["text":=JStr text]> p) j);
          intros H; injection H as _ <-; exact Hmd.
      * apply extract_metadata_written in Hmd.
        intros H. injection H as _ <-. exact Hmd.
    + intros H. injection H as _ <-. reflexivity.
  - intros H. injection H as _ <-. reflexivity.
Qed.

Lemma enrich_loop_written posts acc w res w' :
  enrich_loop service fix_text posts acc w = (res, w') →
  written w' = written w.
Proof.
  revert acc w. induction posts as [|p posts IH]; intros acc w H.
  - simpl in H. injection H as _ <-. reflexivity.
  - destruct (enrich_post service fix_text p w) as [[[r|]|e] w1] eqn:Hp;
      pose proof (enrich_post_written _ _ _ _ Hp) as Hw.
    + rewrite (enrich_loop_step_some _ _ _ _ _ _ Hp) in H.
      rewrite (IH _ _ H). exact Hw.
    + rewrite (enrich_loop_step_none _ _ _ _ _ Hp) in H.
      rewrite (IH _ _ H). exact Hw.
    + rewrite (enrich_loop_step_raised _ _ _ _ _ _ Hp) in H.
      injection H as _ <-. exact Hw.
Qed.

Lemma enrich_post_some_run_inv p w r w' :
  enrich_post service fix_text p w = (Ok (Some r), w') →
  ∃ v text fields,
    p !! "text" = Some v
    ∧ fix_text v = Ok text
    ∧ extract_metadata service text w = (Ok (JObj fields), w')
    ∧ r = fields ∪ <["text" := JStr text]> p.
Proof.
  unfold enrich_post. destruct (p !! "text") as [v|] eqn:Hp; [|discriminate].
  unfold bind, lift. destruct (fix_text v) as [text|e] eqn:Hfix; [|discriminate].
  destruct (extract_metadata service text w) as [[j|e] w1] eqn:Hmd;
    [|discriminate].
  destruct j; simpl; try discriminate.
  intros H. injection H as <- <-. exists v, text, fields. auto.
Qed.

(** The record of a post in a completed batch: the post's position in
    the output is the number of posts with a text before it, and the
    record is built from the mapping that the extraction returned for
    this post in this run, at the world reached after the posts before
    it. *)
Lemma enrich_batch_record_at front p back v w out w' :
  enrich_batch service fix_text (front ++ p :: back) w = (Ok out, w') →
  p !! "text" = Some v →
  ∃ acc w1 text fields w2 new_tags,
    enrich_loop service fix_text front [] w = (Ok acc, w1)
    ∧ length acc = length (filter has_text front)
    ∧ fix_text v = Ok text
    ∧ extract_metadata service text w1 = (Ok (JObj fields), w2)
    ∧ out !! length acc
      = Some (<["tags" := JArr new_tags]> (fields ∪ <["text" := JStr text]> p)).
Proof.
  intros H Hv.
  destruct (enrich_batch_inv _ _ _ _ H) as (enriched & w3 & u & Hloop & _ & Hout).
  rewrite enrich_loop_app in Hloop.
  destruct (enrich_loop service fix_text front [] w) as [[acc|e] w1] eqn:Hfront;
    [|discriminate].
  destruct (enrich_post service fix_text p w1) as [[[r|]|e] w2] eqn:Hp.
  - rewrite (enrich_loop_step_some _ _ _ _ _ _ Hp) in Hloop.
    destruct (enrich_post_some_run_inv _ _ _ _ Hp)
      as (v' & text & fields & Hv' & Hfix & Hmd & ->).
    rewrite Hv in Hv'. injection Hv' as <-.
    destruct (enrich_loop_inv _ _ _ _ _ Hloop) as (new & -> & _).
    destruct (enrich_loop_inv _ _ _ _ _ Hfront) as (new0 & Hacc & Hall0).
    simpl in Hacc. subst new0.
    apply mapM_result_Forall2 in Hout.
    destruct (Forall2_lookup_l _ _ _ (length acc)
                (fields ∪ <["text" := JStr text]> p) Hout) as (r' & Hr' & Hrw).
    { rewrite <- app_assoc. apply list_lookup_middle. reflexivity. }
    destruct (rewrite_post_frame _ _ _ Hrw) as (new_tags & ->).
    exists acc, w1, text, fields, w2, new_tags.
    split; [reflexivity |]. split.
    { symmetry. eapply Forall2_length. exact Hall0. }
    split; [exact Hfix |]. split; [exact Hmd | exact Hr'].
  - destruct (enrich_post_none_inv _ _ _ Hp) as [Hno _]. exfalso. apply Hno.
    unfold has_text. rewrite Hv. eauto.
  - rewrite (enrich_loop_step_raised _ _ _ _ _ _ Hp) in Hloop. discriminate.
Qed.

(** C3 (amended): in a completed batch every input post that has a text
    has its record in the output, at the position given by the number
    of posts with a text before it.  With [fields] the mapping that the
    extraction returned for this post in this run (at the world reached
    after the posts before it), the record keeps every field of the post
    whose key is not [tags] and is not a key of [fields], the text being
    the repaired text; when [fields] has no keys besides [line_count],
    [language] and [tags], as the fallback record has none, these are
    all the fields other than those three. *)
Theorem original_fields_outside_metadata_preserved front p back v w out w' :
  enrich_batch service fix_text (front ++ p :: back) w = (Ok out, w') →
  p !! "text" = Some v →
  ∃ acc w1 text fields w2 r,
    enrich_loop service fix_text front [] w = (Ok acc, w1)
    ∧ fix_text v = Ok text
    ∧ extract_metadata service text w1 = (Ok (JObj fields), w2)
    ∧ length acc = length (filter has_text front)
    ∧ out !! length acc = Some r
    ∧ (∀ k, k ≠ "tags" → fields !! k = None →
            r !! k = (<["text" := JStr text]> p) !! k)
    ∧ ((∀ k, k ≠ "line_count" → k ≠ "language" → k ≠ "tags" →
             fields !! k = None) →
       ∀ k, k ≠ "line_count" → k ≠ "language" → k ≠ "tags" →
            r !! k = (<["text" := JStr text]> p) !! k).
Proof.
  intros H Hv.
  destruct (enrich_batch_record_at _ _ _ _ _ _ _ H Hv)
    as (acc & w1 & text & fields & w2 & new_tags & Hfront & Hlen & Hfix & Hmd & Hr).
  exists acc, w1, text, fields, w2,
    (<["tags" := JArr new_tags]> (fields ∪ <["text" := JStr text]> p)).
  split; [exact Hfront |]. split; [exact Hfix |]. split; [exact Hmd |].
  split; [exact Hlen |]. split; [exact Hr |].
  assert (∀ k, k ≠ "tags" → fields !! k = None →
               <["tags" := JArr new_tags]> (fields ∪ <["text" := JStr text]> p) !! k
               = (<["text" := JStr text]> p) !! k) as Hkeep.
  { intros k Hk Hnone. rewrite lookup_insert_ne by congruence.
    apply lookup_union_r. exact Hnone. }
  split; [exact Hkeep |].
  intros Hthree k H1 H2 H3. apply Hkeep; [exact H3 | apply Hthree; assumption].
Qed.

(** C9: when the response for a post parses to a value that is not a
    JSON object, [extract_metadata] returns that value as it is,
    printing nothing, the merge of it into the post raises
    [TypeError], and [process_posts] ends with that exception without
    writing a file. *)
Theorem non_mapping_metadata_aborts_run
    raw_file_path processed_file_path front p back v text w acc w1 j st :
  json_load raw_file_path = Ok (front ++ p :: back) →
  enrich_loop service fix_text front [] w = (Ok acc, w1) →
  p !! "text" = Some v →
  fix_text v = Ok text →
  service (ExtractRequest (truncate text)) (svc w1) = (Parsed j, st) →
  (∀ fields, j ≠ JObj fields) →
  ∃ w2,
    extract_metadata service text w1 = (Ok j, w2)
    ∧ stdout w2 = stdout w1
    ∧ merge (<["text" := JStr text]> p) j = Raised TypeError
    ∧ process_posts service fix_text json_load json_dump
        raw_file_path processed_file_path w = (Raised TypeError, w2)
    ∧ written w2 = written w.
Proof.
  intros Hload Hfront Hp Hfix Hsvc Hj.
  pose proof (extract_metadata_parsed _ _ _ _ Hsvc) as Hmd.
  eexists. split; [exact Hmd |]. split; [reflexivity |]. split.
  { destruct j; try reflexivity. exfalso. eapply Hj. reflexivity. }
  split.
  - unfold process_posts. rewrite Hload. unfold bind at 1.
    unfold enrich_batch. unfold bind at 1.
    rewrite enrich_loop_app, Hfront.
    rewrite (enrich_loop_step_raised _ _ _ _ _ _
               (enrich_post_not_mapping _ _ _ _ _ _ Hp Hfix Hmd Hj)).
    reflexivity.
  - simpl. eapply enrich_loop_written. exact Hfront.
Qed.

(** *** The records of the output *)

Lemma enrich_batch_records posts w out w' :
  enrich_batch service fix_text posts w = (Ok out, w') →
  length out = length (filter has_text posts) ∧ Forall has_text out.
Proof.
  intros H.
  destruct (enrich_batch_inv _ _ _ _ H) as (enriched & w1 & u & Hloop & _ & Hout).
  destruct (enrich_loop_inv _ _ _ _ _ Hloop) as (new & Hnew & Hall).
  simpl in Hnew. subst new.
  pose proof (rewrite_posts_frame _ _ _ Hout) as Hframe. split.
  - rewrite <- (Forall2_length _ _ _ Hframe). symmetry.
    eapply Forall2_length. exact Hall.
  - eapply Forall2_Forall_r; [exact Hframe |].
    eapply Forall2_Forall_r; [exact Hall |].
    apply Forall_forall. intros p _ r (text & fields & _ & ->) r' (new_tags & ->).
    unfold has_text. rewrite lookup_insert_ne by discriminate.
    apply lookup_union_is_Some. right. rewrite lookup_insert_eq. eauto.
Qed.

Lemma enrich_loop_skip front p back acc w :
  p !! "text" = None →
  enrich_loop service fix_text (front ++ p :: back) acc w
  = enrich_loop service fix_text (front ++ back) acc w.
Proof.
  intros Hp. rewrite !enrich_loop_app.
  destruct (enrich_loop service fix_text front acc w) as [[acc'|e] w1];
    [|reflexivity].
  apply enrich_loop_step_none, enrich_post_textless, Hp.
Qed.

(** C6: a post without a [text] field goes through the loop body
    without any effect, so the run on a batch containing it is the run
    on the batch without it: the same records for the other posts, the
    same service calls, the same outcome.  No record of the output
    comes from it: the output has one record per post that has a text,
    and each record has a text. *)
Theorem textless_post_is_skipped front p back w :
  p !! "text" = None →
  enrich_post service fix_text p w = (Ok None, w)
  ∧ enrich_batch service fix_text (front ++ p :: back) w
    = enrich_batch service fix_text (front ++ back) w
  ∧ (∀ raw_with raw_without processed_file_path,
        json_load raw_with = Ok (front ++ p :: back) →
        json_load raw_without = Ok (front ++ back) →
        process_posts service fix_text json_load json_dump
          raw_with processed_file_path w
        = process_posts service fix_text json_load json_dump
            raw_without processed_file_path w)
  ∧ (∀ out w',
        enrich_batch service fix_text (front ++ p :: back) w = (Ok out, w') →
        (p ∉ out)
        ∧ Forall has_text out
        ∧ length out = length (filter has_text (front ++ back))).
Proof.
  intros Hp.
  assert (enrich_batch service fix_text (front ++ p :: back) w
          = enrich_batch service fix_text (front ++ back) w) as Hsame.
  { unfold enrich_batch, bind. rewrite (enrich_loop_skip _ _ _ _ _ Hp).
    reflexivity. }
  split; [apply enrich_post_textless, Hp |]. split; [exact Hsame |]. split.
  - intros raw_with raw_without processed_file_path Hwith Hwithout.
    unfold process_posts. rewrite Hwith, Hwithout. unfold bind.
    rewrite Hsame. reflexivity.
  - intros out w' Hout. rewrite Hsame in Hout.
    destruct (enrich_batch_records _ _ _ _ Hout) as [Hlen Htexts].
    split; [|split; assumption].
    intros Hin. rewrite Forall_forall in Htexts.
    destruct (Htexts _ Hin) as [x Hx]. congruence.
Qed.

(** C4: when the extraction call for a post (or the parsing of its
    response) raises, [extract_metadata] returns the fallback record,
    whose [language] is "Unknown" and whose [tags] is empty; the loop
    appends exactly one record for the post and goes on with the rest
    of the batch; and when the batch completes, that record is in the
    output at the post's position, still with that language and those
    tags. *)
Theorem failed_extraction_yields_one_fallback_record
    front p back v text w acc w1 e st :
  enrich_loop service fix_text front [] w = (Ok acc, w1) →
  p !! "text" = Some v →
  fix_text v = Ok text →
  service (ExtractRequest (truncate text)) (svc w1) = (Failed e, st) →
  ∃ record w2,
    extract_metadata service text w1 = (Ok (JObj record), w2)
    ∧ record = fallback_record (truncate text)
    ∧ record !! "language" = Some (JStr "Unknown")
    ∧ record !! "tags" = Some (JArr [])
    ∧ enrich_loop service fix_text (front ++ p :: back) [] w
      = enrich_loop service fix_text back
          (acc ++ [record ∪ <["text" := JStr text]> p]) w2
    ∧ (∀ out w',
          enrich_batch service fix_text (front ++ p :: back) w = (Ok out, w') →
          length out = length (filter has_text (front ++ p :: back))
          ∧ length acc = length (filter has_text front)
          ∧ ∃ r, out !! length acc = Some r
                 ∧ r !! "language" = Some (JStr "Unknown")
                 ∧ r !! "tags" = Some (JArr [])).
Proof.
  intros Hfront Hp Hfix Hsvc.
  destruct (extract_metadata_failed _ _ _ _ Hsvc) as [d Hmd].
  set (record := fallback_record (truncate text)) in *.
  set (x := record ∪ <["text" := JStr text]> p).
  set (w2 := World st (calls w1 ++ [ExtractRequest (truncate text)])
               (stdout w1 ++ [d]) (written w1)) in *.
  assert (enrich_loop service fix_text (front ++ p :: back) [] w
          = enrich_loop service fix_text back (acc ++ [x]) w2) as Hstep.
  { rewrite enrich_loop_app, Hfront.
    apply enrich_loop_step_some.
    eapply enrich_post_merged; [exact Hp | exact Hfix | exact Hmd]. }
  exists record, w2. split; [exact Hmd |]. split; [reflexivity |].
  split; [apply fallback_language |]. split; [apply fallback_tags |].
  split; [exact Hstep |].
  intros out w' Hout.
  split; [eapply enrich_batch_records; exact Hout |].
  split.
  { destruct (enrich_loop_inv _ _ _ _ _ Hfront) as (new & -> & Hall).
    simpl. symmetry. eapply Forall2_length. exact Hall. }
  destruct (enrich_batch_inv _ _ _ _ Hout) as (enriched & w3 & u & Hloop & _ & Hrw).
  rewrite Hstep in Hloop.
  destruct (enrich_loop_inv _ _ _ _ _ Hloop) as (new & -> & _).
  apply mapM_result_Forall2 in Hrw.
  destruct (Forall2_lookup_l _ _ _ (length acc) x Hrw) as (r & Hr & Hx).
  { rewrite <- app_assoc. apply list_lookup_middle. reflexivity. }
  assert (x !! "tags" = Some (JArr [])) as Htags.
  { apply lookup_union_Some_l, fallback_tags. }
  unfold rewrite_post, get_tags in Hx. rewrite Htags in Hx. simpl in Hx.
  injection Hx as <-. exists (<["tags" := JArr []]> x).
  split; [exact Hr |]. split.
  - rewrite lookup_insert_ne by discriminate.
    apply lookup_union_Some_l, fallback_language.
  - apply lookup_insert_eq.
Qed.

(** *** Service calls of a run *)

Lemma extract_metadata_calls text w res w' :
  extract_metadata service text w = (res, w') →
  calls w' = calls w ++ [ExtractRequest (truncate text)].
Proof.
  destruct (service (ExtractRequest (truncate text)) (svc w))
    as [[v|e] st] eqn:Hsvc.
  - rewrite (extract_metadata_parsed _ _ _ _ Hsvc).
    intros H. injection H as _ <-. reflexivity.
  - destruct (extract_metadata_failed _ _ _ _ Hsvc) as [d ->].
    intros H. injection H as _ <-. reflexivity.
Qed.

Lemma enrich_post_some_calls p w r w' :
  enrich_post service fix_text p w = (Ok (Some r), w') →
  ∃ v text,
    p !! "text" = Some v
    ∧ fix_text v = Ok text
    ∧ calls w' = calls w ++ [ExtractRequest (truncate text)].
Proof.
  unfold enrich_post. destruct (p !! "text") as [v|] eqn:Hp; [|discriminate].
  unfold bind, lift. destruct (fix_text v) as [text|e] eqn:Hfix; [|discriminate].
  destruct (extract_metadata service text w) as [[j|e] w1] eqn:Hmd;
    [|discriminate].
  apply extract_metadata_calls in Hmd.
  destruct (merge (<["text" := JStr text]> p) j); [|discriminate].
  intros H. injection H as _ <-. exists v, text. auto.
Qed.

Lemma enrich_loop_calls posts acc w out w' :
  enrich_loop service fix_text posts acc w = (Ok out, w') →
  ∃ texts,
    Forall2 (λ p text, ∃ v, p !! "text" = Some v ∧ fix_text v = Ok text)
      (filter has_text posts) texts
    ∧ calls w' = calls w ++ ((λ text, ExtractRequest (truncate text)) <$> texts).
Proof.
  revert acc w. induction posts as [|p posts IH]; intros acc w H.
  - simpl in H. injection H as _ <-. exists []. split; [constructor |].
    simpl. rewrite app_nil_r. reflexivity.
  - destruct (enrich_post service fix_text p w) as [[[r|]|e] w1] eqn:Hp.
    + rewrite (enrich_loop_step_some _ _ _ _ _ _ Hp) in H.
      destruct (IH _ _ H) as (texts & Hall & Hcalls).
      destruct (enrich_post_some_calls _ _ _ _ Hp) as (v & text & Hv & Hfix & Hc).
      exists (text :: texts). split.
      * rewrite filter_cons_True by (unfold has_text; rewrite Hv; eauto).
        constructor; [eauto | exact Hall].
      * rewrite Hcalls, Hc, fmap_cons, <- app_assoc. reflexivity.
    + rewrite (enrich_loop_step_none _ _ _ _ _ Hp) in H.
      destruct (enrich_post_none_inv _ _ _ Hp) as [Htext ->].
      destruct (IH _ _ H) as (texts & Hall & Hcalls).
      exists texts. split; [|exact Hcalls].
      rewrite filter_cons_False by exact Htext. exact Hall.
    + rewrite (enrich_loop_step_raised _ _ _ _ _ _ Hp) in H. discriminate.
Qed.

(** A batch that completes has used the chain once for each post with a
    text, in the order of the batch and each with the truncated repaired
    text, and then once for the unification. *)
Lemma completed_batch_invokes_chain_per_post_then_once posts w out w' :
  enrich_batch service fix_text posts w = (Ok out, w') →
  ∃ texts tags,
    Forall2 (λ p text, ∃ v, p !! "text" = Some v ∧ fix_text v = Ok text)
      (filter has_text posts) texts
    ∧ calls w'
      = calls w ++ ((λ text, ExtractRequest (truncate text)) <$> texts)
          ++ [UnifyRequest tags]
    ∧ length (calls w')
      = (length (calls w) + length (filter has_text posts) + 1)%nat.
Proof.
  intros H.
  destruct (enrich_batch_inv _ _ _ _ H) as (enriched & w1 & u & Hloop & Hunify & _).
  destruct (enrich_loop_calls _ _ _ _ _ Hloop) as (texts & Hall & Hcalls).
  destruct (get_unified_tags_ok_inv _ _ _ _ Hunify) as (X & _ & Hc & _).
  exists texts, (unique_tags_list X). split; [exact Hall |].
  assert (calls w'
          = calls w ++ ((λ text, ExtractRequest (truncate text)) <$> texts)
              ++ [UnifyRequest (unique_tags_list X)]) as Heq.
  { rewrite Hc, Hcalls, <- app_assoc. reflexivity. }
  split; [exact Heq |].
  rewrite Heq, !length_app, length_fmap, (Forall2_length _ _ _ Hall).
  simpl. lia.
Qed.

(** X4: the text sent in an extraction request has at most 2003
    characters and agrees with the post's text on its first 2000. *)
Theorem extraction_request_is_bounded text w :
  ∃ sent res w',
    extract_metadata service text w = (res, w')
    ∧ calls w' = calls w ++ [ExtractRequest sent]
    ∧ (String.length sent ≤ MAX_LENGTH + 3)%nat
    ∧ str_take MAX_LENGTH sent = str_take MAX_LENGTH text.
Proof.
  destruct (extract_metadata service text w) as [res w'] eqn:H.
  exists (truncate text), res, w'. split; [reflexivity |].
  split; [eapply extract_metadata_calls; exact H |].
  split; [apply truncate_length | apply truncate_prefix].
Qed.

(** X5: the fallback [line_count] is at least 1, at most 2001, and never
    more than the number of line breaks of the whole text plus one. *)
Theorem fallback_line_count_bounds text w e st :
  service (ExtractRequest (truncate text)) (svc w) = (Failed e, st) →
  ∃ n record w',
    extract_metadata service text w = (Ok (JObj record), w')
    ∧ record !! "line_count" = Some (JInt n)
    ∧ (1 ≤ n ≤ Z.of_nat MAX_LENGTH + 1)%Z
    ∧ (n ≤ count_newlines text + 1)%Z.
Proof.
  intros Hsvc. destruct (extract_metadata_failed _ _ _ _ Hsvc) as [d Hd].
  eexists _, _, _. split; [exact Hd |]. split; [apply fallback_line_count |].
  pose proof (count_newlines_truncate text). lia.
Qed.

(** X7: the unification step does not depend on the order of the posts:
    on any reordering of them [get_unified_tags] makes the same request
    and ends the same way. *)
Theorem unification_ignores_post_order posts posts' w :
  posts ≡ₚ posts' →
  get_unified_tags service posts w = get_unified_tags service posts' w.
Proof.
  intros Hperm. unfold get_unified_tags.
  rewrite (collect_tags_perm _ _ ∅ Hperm). reflexivity.
Qed.

(** *** What a run writes *)

Lemma get_unified_tags_written posts w res w' :
  get_unified_tags service posts w = (res, w') → written w' = written w.
Proof.
  destruct (collect_tags ∅ posts) as [X|e] eqn:HX.
  - destruct (service (UnifyRequest (unique_tags_list X)) (svc w))
      as [[v|e] st] eqn:Hsvc.
    + rewrite (get_unified_tags_parsed _ _ _ _ _ HX Hsvc).
      intros H. injection H as _ <-. reflexivity.
    + destruct (get_unified_tags_failed _ _ _ _ _ HX Hsvc) as [d ->].
      intros H. injection H as _ <-. reflexivity.
  - rewrite (get_unified_tags_collect_raised _ _ _ HX).
    intros H. injection H as _ <-. reflexivity.
Qed.

Lemma enrich_batch_written posts w res w' :
  enrich_batch service fix_text posts w = (res, w') → written w' = written w.
Proof.
  unfold enrich_batch, bind, lift.
  destruct (enrich_loop service fix_text posts [] w) as [[enriched|e] w1]
    eqn:Hloop; apply enrich_loop_written in Hloop.
  - destruct (get_unified_tags service enriched w1) as [[u|e] w2] eqn:Hunify;
      apply get_unified_tags_written in Hunify;
      intros H; injection H as _ <-; congruence.
  - intros H. injection H as _ <-. exact Hloop.
Qed.

(** X3: [process_posts] can end in an exception only while loading the
    input or while enriching the batch, that is before the save block
    of lines 38-43 is entered, whose own exceptions are all caught: a
    run that raises has not attempted to write the output. *)
Theorem raising_run_never_reaches_the_write
    raw_file_path processed_file_path w e w' :
  process_posts service fix_text json_load json_dump
    raw_file_path processed_file_path w = (Raised e, w') →
  ((json_load raw_file_path = Raised e ∧ w' = w)
   ∨ ∃ posts,
       json_load raw_file_path = Ok posts
       ∧ enrich_batch service fix_text posts w = (Raised e, w'))
  ∧ written w' = written w.
Proof.
  unfold process_posts.
  destruct (json_load raw_file_path) as [posts|e0] eqn:Hload.
  - unfold bind.
    destruct (enrich_batch service fix_text posts w) as [[out|e1] w1] eqn:Hbatch.
    + unfold save. destruct (json_dump processed_file_path out); discriminate.
    + intros H. injection H as <- <-. split.
      * right. exists posts. auto.
      * eapply enrich_batch_written. exact Hbatch.
  - destruct e0; try discriminate;
      intros H; injection H as <- <-; (split; [left; auto | reflexivity]).
Qed.

(** X2: an exception raised by [open] or [json.dump] while saving is
    caught: the run returns normally and prints the save error, without
    using the chain again.  (What the failed write leaves at the output
    path is not modelled.) *)
Theorem write_failure_is_reported_not_raised
    raw_file_path processed_file_path w posts out w1 e :
  json_load raw_file_path = Ok posts →
  enrich_batch service fix_text posts w = (Ok out, w1) →
  json_dump processed_file_path out = Some e →
  ∃ w',
    process_posts service fix_text json_load json_dump
      raw_file_path processed_file_path w = (Ok tt, w')
    ∧ stdout w' = stdout w1 ++ [SaveErrorDiagnostic e]
    ∧ calls w' = calls w1
    ∧ svc w' = svc w1.
Proof.
  intros Hload Hbatch Hdump. unfold process_posts. rewrite Hload.
  unfold bind. rewrite Hbatch. unfold save. rewrite Hdump.
  eexists. split; [reflexivity |]. split; [reflexivity |].
  split; reflexivity.
Qed.

(** X17: a run whose output is written writes the enriched batch, one
    record per post with a text, and reports that number of posts. *)
Theorem successful_run_reports_enriched_count
    raw_file_path processed_file_path w posts out w1 :
  json_load raw_file_path = Ok posts →
  enrich_batch service fix_text posts w = (Ok out, w1) →
  json_dump processed_file_path out = None →
  ∃ w',
    process_posts service fix_text json_load json_dump
      raw_file_path processed_file_path w = (Ok tt, w')
    ∧ written w' = written w ++ [(processed_file_path, out)]
    ∧ length out = length (filter has_text posts)
    ∧ stdout w'
      = stdout w1
          ++ [SavedDiagnostic (length (filter has_text posts))
                processed_file_path].
Proof.
  intros Hload Hbatch Hdump. unfold process_posts. rewrite Hload.
  unfold bind. rewrite Hbatch. unfold save. rewrite Hdump.
  destruct (enrich_batch_records _ _ _ _ Hbatch) as [Hlen _].
  eexists. split; [reflexivity |]. simpl.
  rewrite (enrich_batch_written _ _ _ _ Hbatch), Hlen. auto.
Qed.

(** *** How a batch can end *)


(** X10: when no enriched post has any tag, the unification response is
    never consulted: whatever the call returns or raises, the batch
    completes and every record gets an empty [tags] list. *)
Theorem untagged_batch_ignores_unification_reply posts w enriched w1 :
  enrich_loop service fix_text posts [] w = (Ok enriched, w1) →
  Forall (λ r, py_iter (get_tags r) = Ok []) enriched →
  ∃ w2,
    enrich_batch service fix_text posts w
    = (Ok ((λ r, <["tags" := JArr []]> r) <$> enriched), w2)
    ∧ calls w2 = calls w1 ++ [UnifyRequest ""].
Proof.
  intros Hloop Hall.
  pose proof (collect_tags_untagged _ ∅ Hall) as HX.
  destruct (service (UnifyRequest (unique_tags_list ∅)) (svc w1))
    as [[v|e] st] eqn:Hsvc.
  - eexists. split.
    + rewrite (enrich_batch_compose _ _ _ _ _ _ Hloop
                 (get_unified_tags_parsed _ _ _ _ _ HX Hsvc)).
      rewrite rewrite_posts_untagged by exact Hall. reflexivity.
    + simpl. rewrite unique_tags_list_empty. reflexivity.
  - destruct (get_unified_tags_failed _ _ _ _ _ HX Hsvc) as [d Hd].
    eexists. split.
    + rewrite (enrich_batch_compose _ _ _ _ _ _ Hloop Hd).
      rewrite rewrite_posts_untagged by exact Hall. reflexivity.
    + simpl. rewrite unique_tags_list_empty. reflexivity.
Qed.

Lemma enrich_post_raised_inv p w e w' :
  enrich_post service fix_text p w = (Raised e, w') →
  (∃ v, p !! "text" = Some v ∧ fix_text v = Raised e) ∨ e = TypeError.
Proof.
  unfold enrich_post. destruct (p !! "text") as [v|]; [|discriminate].
  unfold bind, lift. destruct (fix_text v) as [text|e'] eqn:Hfix.
  - destruct (extract_metadata_total text w) as (j & w1 & ->).
    destruct j; simpl; try discriminate;
      intros H; injection H as <- _; right; reflexivity.
  - intros H. injection H as <- _. left. eauto.
Qed.

Lemma enrich_loop_raised_inv posts acc w e w' :
  enrich_loop service fix_text posts acc w = (Raised e, w') →
  (∃ p v, p ∈ posts ∧ p !! "text" = Some v ∧ fix_text v = Raised e)
  ∨ e = TypeError.
Proof.
  revert acc w. induction posts as [|p posts IH]; intros acc w H.
  - discriminate.
  - destruct (enrich_post service fix_text p w) as [[[r|]|e'] w1] eqn:Hp.
    + rewrite (enrich_loop_step_some _ _ _ _ _ _ Hp) in H.
      destruct (IH _ _ H) as [(q & v & Hq & Hv)|He]; [left | right; exact He].
      exists q, v. split; [right; exact Hq | exact Hv].
    + rewrite (enrich_loop_step_none _ _ _ _ _ Hp) in H.
      destruct (IH _ _ H) as [(q & v & Hq & Hv)|He]; [left | right; exact He].
      exists q, v. split; [right; exact Hq | exact Hv].
    + rewrite (enrich_loop_step_raised _ _ _ _ _ _ Hp) in H.
      injection H as <- _.
      destruct (enrich_post_raised_inv _ _ _ _ Hp) as [(v & Hv)|He];
        [left | right; exact He].
      exists p, v. split; [left | exact Hv].
Qed.

Lemma get_unified_tags_raised_inv posts w e w' :
  get_unified_tags service posts w = (Raised e, w') → e = TypeError.
Proof.
  destruct (collect_tags ∅ posts) as [X|e'] eqn:HX.
  - destruct (service (UnifyRequest (unique_tags_list X)) (svc w))
      as [[v|e''] st] eqn:Hsvc.
    + rewrite (get_unified_tags_parsed _ _ _ _ _ HX Hsvc). discriminate.
    + destruct (get_unified_tags_failed _ _ _ _ _ HX Hsvc) as [d ->].
      discriminate.
  - rewrite (get_unified_tags_collect_raised _ _ _ HX).
    intros H. injection H as <- _. eapply collect_tags_raised. exact HX.
Qed.


(** *** Runs that complete *)

Lemma enrich_loop_well_formed posts acc w :
  (∀ text st,
      match (service (ExtractRequest text) st).1 with
      | Parsed v => ∃ fields ts,
          v = JObj fields ∧ fields !! "tags" = Some (JArr (JStr <$> ts))
      | Failed _ => True
      end) →
  Forall (λ p, ∀ v, p !! "text" = Some v → ∃ text, fix_text v = Ok text) posts →
  Forall (λ r, ∃ ts, tag_strings r = Ok ts) acc →
  ∃ out w',
    enrich_loop service fix_text posts acc w = (Ok out, w')
    ∧ Forall (λ r, ∃ ts, tag_strings r = Ok ts) out.
Proof.
  intros Hext Hfix. revert acc w.
  induction Hfix as [|p posts Hp _ IH]; intros acc w Hacc.
  - exists acc, w. split; [reflexivity | exact Hacc].
  - destruct (p !! "text") as [v|] eqn:Hv.
    + destruct (Hp v eq_refl) as [text Htext].
      assert (∃ fields ts w1,
                 extract_metadata service text w = (Ok (JObj fields), w1)
                 ∧ fields !! "tags" = Some (JArr (JStr <$> ts)))
        as (fields & ts & w1 & Hmd & Htags).
      { destruct (service (ExtractRequest (truncate text)) (svc w))
          as [[j|e] st] eqn:Hsvc.
        - specialize (Hext (truncate text) (svc w)). rewrite Hsvc in Hext.
          destruct Hext as (fields & ts & -> & Htags).
          exists fields, ts. eexists. split; [|exact Htags].
          eapply extract_metadata_parsed. exact Hsvc.
        - destruct (extract_metadata_failed _ _ _ _ Hsvc) as [d Hd].
          exists (fallback_record (truncate text)), []. eexists.
          split; [exact Hd | apply fallback_tags]. }
      rewrite (enrich_loop_step_some _ _ _ _ _ _
                 (enrich_post_merged _ _ _ _ _ _ Hv Htext Hmd)).
      apply IH. apply Forall_app. split; [exact Hacc |].
      constructor; [|constructor]. exists ts.
      apply tag_strings_of_list, lookup_union_Some_l, Htags.
    + rewrite (enrich_loop_step_none _ _ _ _ _ (enrich_post_textless _ _ Hv)).
      apply IH. exact Hacc.
Qed.

(** X12: when the text repair succeeds on every post, every extraction
    response that parses is a JSON object whose [tags] is a list of
    strings, and every unification response that parses is a JSON
    object, the batch completes with one record per post that has a
    text, however many of the calls raise. *)
Theorem well_formed_replies_complete_the_batch posts w :
  (∀ text st,
      match (service (ExtractRequest text) st).1 with
      | Parsed v => ∃ fields ts,
          v = JObj fields ∧ fields !! "tags" = Some (JArr (JStr <$> ts))
      | Failed _ => True
      end) →
  (∀ tags st,
      match (service (UnifyRequest tags) st).1 with
      | Parsed v => ∃ fields, v = JObj fields
      | Failed _ => True
      end) →
  Forall (λ p, ∀ v, p !! "text" = Some v → ∃ text, fix_text v = Ok text) posts →
  ∃ out w',
    enrich_batch service fix_text posts w = (Ok out, w')
    ∧ length out = length (filter has_text posts).
Proof.
  intros Hext Hunify Hfix.
  destruct (enrich_loop_well_formed posts [] w Hext Hfix (Forall_nil_2 _))
    as (enriched & w1 & Hloop & Htagged).
  destruct (collect_tags_total enriched ∅ Htagged) as [X HX].
  assert (∃ fields w2,
             get_unified_tags service enriched w1 = (Ok (JObj fields), w2))
    as (fields & w2 & Hu).
  { destruct (service (UnifyRequest (unique_tags_list X)) (svc w1))
      as [[j|e] st] eqn:Hsvc.
    - specialize (Hunify (unique_tags_list X) (svc w1)). rewrite Hsvc in Hunify.
      destruct Hunify as (fields & ->). exists fields. eexists.
      eapply get_unified_tags_parsed; eauto.
    - destruct (get_unified_tags_failed _ _ _ _ _ HX Hsvc) as [d Hd]. eauto. }
  destruct (rewrite_posts_strings fields enriched Htagged) as (out & Hout & _).
  assert (enrich_batch service fix_text posts w = (Ok out, w2)) as Hbatch.
  { rewrite (enrich_batch_compose _ _ _ _ _ _ Hloop Hu), Hout. reflexivity. }
  exists out, w2. split; [exact Hbatch |].
  eapply enrich_batch_records. exact Hbatch.
Qed.

(** X13: every record of a completed batch has a [text] field and a
    [tags] field that is a list, also when neither the post nor the
    extraction response had a [tags] field. *)
Theorem output_records_have_text_and_tag_list posts w out w' :
  enrich_batch service fix_text posts w = (Ok out, w') →
  Forall (λ r, has_text r ∧ ∃ new_tags, r !! "tags" = Some (JArr new_tags)) out.
Proof.
  intros H. destruct (enrich_batch_records _ _ _ _ H) as [_ Htext].
  destruct (enrich_batch_inv _ _ _ _ H) as (enriched & w1 & u & _ & _ & Hout).
  apply rewrite_posts_frame in Hout.
  apply Forall_and. split; [exact Htext |].
  eapply Forall2_Forall_r; [exact Hout |].
  apply Forall_forall. intros r _ r' (new_tags & ->).
  exists new_tags. apply lookup_insert_eq.
Qed.

(** X14: where the mapping that the extraction returned for a post in
    this run has a field other than [tags], the output record of the
    post holds the mapping's value, whatever the post had under that
    key: in the merge the response wins. *)
Theorem extracted_fields_override_post_fields front p back v w out w' :
  enrich_batch service fix_text (front ++ p :: back) w = (Ok out, w') →
  p !! "text" = Some v →
  ∃ acc w1 text fields w2 r,
    enrich_loop service fix_text front [] w = (Ok acc, w1)
    ∧ fix_text v = Ok text
    ∧ extract_metadata service text w1 = (Ok (JObj fields), w2)
    ∧ out !! length acc = Some r
    ∧ ∀ k x, k ≠ "tags" → fields !! k = Some x → r !! k = Some x.
Proof.
  intros H Hv.
  destruct (enrich_batch_record_at _ _ _ _ _ _ _ H Hv)
    as (acc & w1 & text & fields & w2 & new_tags & Hfront & _ & Hfix & Hmd & Hr).
  exists acc, w1, text, fields, w2,
    (<["tags" := JArr new_tags]> (fields ∪ <["text" := JStr text]> p)).
  split; [exact Hfront |]. split; [exact Hfix |]. split; [exact Hmd |].
  split; [exact Hr |].
  intros k x Hk Hx. rewrite lookup_insert_ne by congruence.
  apply lookup_union_Some_l. exact Hx.
Qed.

(** X15: an exception raised by the text repair is not caught: the run
    ends with it, with no extraction call for that post or any later
    one, no unification call, and no file written. *)
Theorem repair_failure_aborts_run
    raw_file_path processed_file_path front p back v w acc w1 e :
  json_load raw_file_path = Ok (front ++ p :: back) →
  enrich_loop service fix_text front [] w = (Ok acc, w1) →
  p !! "text" = Some v →
  fix_text v = Raised e →
  process_posts service fix_text json_load json_dump
    raw_file_path processed_file_path w = (Raised e, w1)
  ∧ written w1 = written w.
Proof.
  intros Hload Hfront Hp Hfix. split.
  - unfold process_posts. rewrite Hload. unfold bind at 1.
    unfold enrich_batch. unfold bind at 1.
    rewrite enrich_loop_app, Hfront.
    assert (enrich_post service fix_text p w1 = (Raised e, w1)) as Hpost.
    { unfold enrich_post. rewrite Hp. unfold bind, lift. rewrite Hfix.
      reflexivity. }
    rewrite (enrich_loop_step_raised _ _ _ _ _ _ Hpost).
    destruct e; reflexivity.
  - eapply enrich_loop_written. exact Hfront.
Qed.

(** *** The state of the service after a use of the chain *)

Lemma extract_metadata_svc text w res w' :
  extract_metadata service text w = (res, w') →
  svc w' = (service (ExtractRequest (truncate text)) (svc w)).2.
Proof.
  destruct (service (ExtractRequest (truncate text)) (svc w))
    as [[v|e] st] eqn:Hsvc.
  - rewrite (extract_metadata_parsed _ _ _ _ Hsvc).
    intros H. injection H as _ <-. reflexivity.
  - destruct (extract_metadata_failed _ _ _ _ Hsvc) as [d ->].
    intros H. injection H as _ <-. reflexivity.
Qed.

Lemma get_unified_tags_svc posts w res w' :
  get_unified_tags service posts w = (res, w') →
  svc w' = match collect_tags ∅ posts with
           | Ok X => (service (UnifyRequest (unique_tags_list X)) (svc w)).2
           | Raised _ => svc w
           end.
Proof.
  destruct (collect_tags ∅ posts) as [X|e] eqn:HX.
  - destruct (service (UnifyRequest (unique_tags_list X)) (svc w))
      as [[v|e] st] eqn:Hsvc.
    + rewrite (get_unified_tags_parsed _ _ _ _ _ HX Hsvc).
      intros H. injection H as _ <-. reflexivity.
    + destruct (get_unified_tags_failed _ _ _ _ _ HX Hsvc) as [d ->].
      intros H. injection H as _ <-. reflexivity.
  - rewrite (get_unified_tags_collect_raised _ _ _ HX).
    intros H. injection H as _ <-. reflexivity.
Qed.

End PipelineProperties.

(** * The properties on concrete runs *)

Import Scenario.

(** C2, as stated, fails: a text of 2000 letters and a final line break
    has one line break, yet its fallback [line_count] is 1, not 2. *)
Lemma long_text_fallback_miscounts :
  String.length long_text = 2001
  ∧ count_newlines long_text = 1%Z
  ∧ ∃ record w',
      extract_metadata scripted long_text (start []) = (Ok (JObj record), w')
      ∧ record !! "line_count" = Some (JInt 1)
      ∧ record !! "line_count" ≠ Some (JInt (count_newlines long_text + 1)).
Proof.
  split; [vm_compute; reflexivity |]. split; [vm_compute; reflexivity |].
  eexists _, _. split; [vm_compute; reflexivity |].
  split; [vm_compute; reflexivity |].
  vm_compute. discriminate.
Qed.

Lemma fallback_line_count_of_truncated_text_witness :
  scripted (ExtractRequest (truncate long_text)) (svc (start []))
  = (Failed (OtherException "ConnectionError"), [])
  ∧ ∃ record w',
      extract_metadata scripted long_text (start []) = (Ok (JObj record), w')
      ∧ record !! "line_count"
        = Some (JInt (count_newlines (str_take MAX_LENGTH long_text) + 1)).
Proof.
  split; [reflexivity |].
  destruct (fallback_line_count_of_truncated_text scripted long_text (start [])
              (OtherException "ConnectionError") [] eq_refl)
    as (record & w' & H1 & _ & _ & H2).
  exists record, w'. split; [exact H1 |]. apply H2. vm_compute. lia.
Defined.

(** C3, as stated, fails: when the extraction returns a mapping that
    also has an [author] key, the post's own [author] is overwritten. *)
Lemma extra_metadata_key_overwrites_field :
  authored_post !! "author" = Some (JStr "Asha")
  ∧ ∃ r w',
      enrich_batch scripted repair [authored_post]
        (start [Parsed overreaching_metadata; Parsed (JObj ∅)])
      = (Ok [r], w')
      ∧ r !! "author" = Some (JStr "Model")
      ∧ r !! "author" ≠ authored_post !! "author".
Proof.
  split; [vm_compute; reflexivity |].
  eexists _, _. split; [vm_compute; reflexivity |].
  split; [vm_compute; reflexivity |].
  vm_compute. discriminate.
Qed.

Lemma failed_extraction_yields_one_fallback_record_witness :
  enrich_loop scripted repair [textless_post] [] (start []) = (Ok [], start [])
  ∧ authored_post !! "text" = Some (JStr "Great tips on job search!")
  ∧ repair (JStr "Great tips on job search!") = Ok "Great tips on job search!"
  ∧ scripted (ExtractRequest (truncate "Great tips on job search!"))
      (svc (start []))
    = (Failed (OtherException "ConnectionError"), [])
  ∧ ∃ record w2,
      extract_metadata scripted "Great tips on job search!" (start [])
      = (Ok (JObj record), w2)
      ∧ record !! "language" = Some (JStr "Unknown")
      ∧ record !! "tags" = Some (JArr [])
      ∧ enrich_loop scripted repair
          ([textless_post] ++ authored_post :: [authored_post]) [] (start [])
        = enrich_loop scripted repair [authored_post]
            ([] ++ [record ∪ <["text" := JStr "Great tips on job search!"]>
                             authored_post]) w2.
Proof.
  split; [reflexivity |]. split; [reflexivity |]. split; [reflexivity |].
  split; [reflexivity |].
  destruct (failed_extraction_yields_one_fallback_record scripted repair
              [textless_post] authored_post [authored_post]
              (JStr "Great tips on job search!") "Great tips on job search!"
              (start []) [] (start []) (OtherException "ConnectionError") []
              eq_refl eq_refl eq_refl eq_refl)
    as (record & w2 & H1 & _ & H2 & H3 & H4 & _).
  exists record, w2. repeat split; assumption.
Defined.

Lemma failed_unification_keeps_tags_witness :
  enrich_loop scripted repair [authored_post] []
    (start [Parsed (good_metadata "Job Search")])
  = (Ok [enriched_authored_post "Job Search"], World [] [extract_call] [] [])
  ∧ collect_tags ∅ [enriched_authored_post "Job Search"] = Ok {["Job Search"]}
  ∧ scripted (UnifyRequest (unique_tags_list {["Job Search"]})) []
    = (Failed (OtherException "ConnectionError"), [])
  ∧ ∃ w2,
      enrich_batch scripted repair [authored_post]
        (start [Parsed (good_metadata "Job Search")])
      = (Ok [enriched_authored_post "Job Search"], w2).
Proof.
  assert (enrich_loop scripted repair [authored_post] []
            (start [Parsed (good_metadata "Job Search")])
          = (Ok [enriched_authored_post "Job Search"],
             World [] [extract_call] [] [])) as Hloop
    by (vm_compute; reflexivity).
  assert (collect_tags ∅ [enriched_authored_post "Job Search"]
          = Ok {["Job Search"]}) as HX by (vm_compute; reflexivity).
  split; [exact Hloop |]. split; [exact HX |]. split; [reflexivity |].
  destruct (failed_unification_keeps_tags scripted repair [authored_post]
              (start [Parsed (good_metadata "Job Search")])
              [enriched_authored_post "Job Search"]
              (World [] [extract_call] [] []) {["Job Search"]}
              (OtherException "ConnectionError") [] Hloop HX eq_refl)
    as (w2 & out & _ & _ & Hbatch & Hall).
  exists w2. rewrite Hbatch. f_equal. f_equal.
  apply Forall2_cons_inv_l in Hall as (r' & out' & (items & _ & _ & _ & Hsame) & Hnil & ->).
  apply Forall2_nil_inv_l in Hnil as ->.
  f_equal. eapply Hsame. vm_compute. reflexivity.
Defined.

Lemma textless_post_is_skipped_witness :
  textless_post !! "text" = None
  ∧ enrich_batch scripted repair
      ([authored_post] ++ textless_post :: [authored_post])
      (start job_search_script)
    = enrich_batch scripted repair ([authored_post] ++ [authored_post])
        (start job_search_script).
Proof.
  split; [reflexivity |].
  apply (textless_post_is_skipped scripted repair (disk []) writable
           [authored_post] textless_post [authored_post]
           (start job_search_script) eq_refl).
Defined.

(** C7, as stated, fails for [get_unified_tags]: on a post whose [tags]
    is [null] it raises [TypeError] instead of returning. *)
Lemma null_tags_escape_get_unified_tags :
  get_unified_tags scripted [null_tags_post] (start [])
  = (Raised TypeError, start [])
  ∧ ¬ ∃ v w', get_unified_tags scripted [null_tags_post] (start []) = (Ok v, w').
Proof.
  assert (get_unified_tags scripted [null_tags_post] (start [])
          = (Raised TypeError, start [])) as H by (vm_compute; reflexivity).
  split; [exact H |]. intros (v & w' & Hok). rewrite H in Hok. discriminate.
Qed.

(** The scenario of two posts tagged "Jobseekers" and "Job Hunting" whose
    tags the unifier merges: both end with the single tag "Job Search". *)
Example synonym_tags_are_merged :
  written (run job_search_script [authored_post; authored_post]).2
  = [(processed_path,
      [enriched_authored_post "Job Search"; enriched_authored_post "Job Search"])].
Proof. vm_compute. reflexivity. Qed.

Lemma tag_rewrite_is_total_witness :
  enrich_loop scripted repair [authored_post; authored_post] []
    (start job_search_script)
  = (Ok [enriched_authored_post "Jobseekers";
         enriched_authored_post "Job Hunting"],
     World [Parsed (JObj job_search_mapping)] [extract_call; extract_call] [] [])
  ∧ get_unified_tags scripted
      [enriched_authored_post "Jobseekers"; enriched_authored_post "Job Hunting"]
      (World [Parsed (JObj job_search_mapping)] [extract_call; extract_call] [] [])
    = (Ok (JObj job_search_mapping),
       World [] [extract_call; extract_call;
                 UnifyRequest "Job Hunting, Jobseekers"] [] [])
  ∧ ∃ out,
      enrich_batch scripted repair [authored_post; authored_post]
        (start job_search_script)
      = (Ok out,
         World [] [extract_call; extract_call;
                   UnifyRequest "Job Hunting, Jobseekers"] [] [])
      ∧ Forall2 (λ r r', ∃ ts,
                   py_iter (get_tags r) = Ok (JStr <$> ts)
                   ∧ r' = <["tags" :=
                             JArr ((λ t, default (JStr t)
                                           (job_search_mapping !! t)) <$> ts)]> r)
          [enriched_authored_post "Jobseekers";
           enriched_authored_post "Job Hunting"] out.
Proof.
  assert (enrich_loop scripted repair [authored_post; authored_post] []
            (start job_search_script)
          = (Ok [enriched_authored_post "Jobseekers";
                 enriched_authored_post "Job Hunting"],
             World [Parsed (JObj job_search_mapping)]
               [extract_call; extract_call] [] [])) as Hloop
    by (vm_compute; reflexivity).
  assert (get_unified_tags scripted
            [enriched_authored_post "Jobseekers";
             enriched_authored_post "Job Hunting"]
            (World [Parsed (JObj job_search_mapping)]
               [extract_call; extract_call] [] [])
          = (Ok (JObj job_search_mapping),
             World [] [extract_call; extract_call;
                       UnifyRequest "Job Hunting, Jobseekers"] [] [])) as Hunify
    by (vm_compute; reflexivity).
  split; [exact Hloop |]. split; [exact Hunify |].
  exact (tag_rewrite_is_total scripted repair _ _ _ _ _ _ Hloop Hunify).
Defined.

Lemma non_mapping_metadata_aborts_run_witness :
  disk [authored_post] raw_path = Ok ([] ++ authored_post :: [])
  ∧ scripted extract_call (svc (start [Parsed (JArr [])]))
    = (Parsed (JArr []), [])
  ∧ (∀ fields, JArr [] ≠ JObj fields)
  ∧ ∃ w2,
      extract_metadata scripted "Great tips on job search!"
        (start [Parsed (JArr [])])
      = (Ok (JArr []), w2)
      ∧ run [Parsed (JArr [])] [authored_post] = (Raised TypeError, w2)
      ∧ written w2 = [].
Proof.
  split; [reflexivity |]. split; [reflexivity |]. split; [discriminate |].
  destruct (non_mapping_metadata_aborts_run scripted repair
              (disk [authored_post]) writable raw_path processed_path
              [] authored_post [] (JStr "Great tips on job search!")
              "Great tips on job search!" (start [Parsed (JArr [])]) []
              (start [Parsed (JArr [])]) (JArr []) []
              eq_refl eq_refl eq_refl eq_refl eq_refl)
    as (w2 & H1 & _ & _ & H2 & H3); [discriminate |].
  exists w2. repeat split; assumption.
Defined.

Lemma only_decode_errors_are_caught_witness :
  undecodable_disk raw_path = Raised UnicodeDecodeError
  ∧ disk [] "missing.json" = Raised FileNotFoundError
  ∧ process_posts scripted repair undecodable_disk writable
      raw_path processed_path (start [])
    = (Ok tt, World [] [] [UnicodeDecodeDiagnostic] [])
  ∧ process_posts scripted repair (disk []) writable
      "missing.json" processed_path (start [])
    = (Raised FileNotFoundError, start []).
Proof.
  split; [reflexivity |]. split; [reflexivity |]. split.
  - apply (only_decode_errors_are_caught scripted repair undecodable_disk
             writable raw_path processed_path (start []) UnicodeDecodeError
             eq_refl). reflexivity.
  - apply (only_decode_errors_are_caught scripted repair (disk [])
             writable "missing.json" processed_path (start []) FileNotFoundError
             eq_refl); discriminate.
Defined.

(** ** Further properties on concrete runs *)

Lemma successful_run_reports_enriched_count_witness :
  disk [authored_post; textless_post] raw_path = Ok [authored_post; textless_post]
  ∧ ∃ out w1 w',
      enrich_batch scripted repair [authored_post; textless_post]
        (start [Parsed (good_metadata "Job Search")]) = (Ok out, w1)
      ∧ writable processed_path out = None
      ∧ run [Parsed (good_metadata "Job Search")] [authored_post; textless_post]
        = (Ok tt, w')
      ∧ written w' = [(processed_path, out)]
      ∧ length out = 1.
Proof.
  split; [reflexivity |].
  destruct (enrich_batch scripted repair [authored_post; textless_post]
              (start [Parsed (good_metadata "Job Search")]))
    as [[out|e] w1] eqn:Hbatch; [|vm_compute in Hbatch; discriminate].
  destruct (successful_run_reports_enriched_count scripted repair
              (disk [authored_post; textless_post]) writable
              raw_path processed_path
              (start [Parsed (good_metadata "Job Search")])
              [authored_post; textless_post] out w1 eq_refl Hbatch eq_refl)
    as (w' & Hrun & Hwritten & Hlen & _).
  exists out, w1, w'. repeat split; assumption.
Defined.

Lemma fallback_line_count_bounds_witness :
  scripted (ExtractRequest (truncate long_text)) (svc (start []))
  = (Failed (OtherException "ConnectionError"), [])
  ∧ ∃ n record w',
      extract_metadata scripted long_text (start []) = (Ok (JObj record), w')
      ∧ record !! "line_count" = Some (JInt n)
      ∧ (1 ≤ n ≤ count_newlines long_text + 1)%Z.
Proof.
  split; [reflexivity |].
  destruct (fallback_line_count_bounds scripted long_text (start [])
              (OtherException "ConnectionError") [] eq_refl)
    as (n & record & w' & H1 & H2 & H3 & H4).
  exists n, record, w'. split; [exact H1 |]. split; [exact H2 | lia].
Defined.


Lemma unification_ignores_post_order_witness :
  [two_tags_post; null_tags_post] ≡ₚ [null_tags_post; two_tags_post]
  ∧ get_unified_tags scripted [two_tags_post; null_tags_post] (start [])
    = get_unified_tags scripted [null_tags_post; two_tags_post] (start []).
Proof.
  split; [apply perm_swap |].
  apply (unification_ignores_post_order scripted
           [two_tags_post; null_tags_post] [null_tags_post; two_tags_post]
           (start []) (perm_swap _ _ _)).
Defined.

Lemma rewrite_keeps_records_and_tag_counts_witness :
  mapM_result (rewrite_post (JObj job_search_mapping)) [two_tags_post]
  = Ok [<["tags" := JArr [JStr "Job Search"; JStr "Job Search"]]> two_tags_post]
  ∧ Forall2 (λ r r', ∃ items new_tags,
               py_iter (get_tags r) = Ok items
               ∧ r' = <["tags" := JArr new_tags]> r
               ∧ length new_tags = length items
               ∧ ∀ k, k ≠ "tags" → r' !! k = r !! k)
      [two_tags_post]
      [<["tags" := JArr [JStr "Job Search"; JStr "Job Search"]]> two_tags_post].
Proof.
  assert (mapM_result (rewrite_post (JObj job_search_mapping)) [two_tags_post]
          = Ok [<["tags" := JArr [JStr "Job Search"; JStr "Job Search"]]>
                  two_tags_post]) as H by (vm_compute; reflexivity).
  split; [exact H |].
  exact (rewrite_keeps_records_and_tag_counts _ _ _ H).
Defined.

Lemma self_mapping_rewrite_changes_nothing_witness :
  two_tags_post !! "tags"
  = Some (JArr (JStr <$> ["Jobseekers"; "Job Hunting"]))
  ∧ rewrite_post (JObj (identity_mapping {["Jobseekers"]})) two_tags_post
    = Ok two_tags_post.
Proof.
  split; [reflexivity |].
  apply (self_mapping_rewrite_changes_nothing
           (identity_mapping {["Jobseekers"]}) two_tags_post
           ["Jobseekers"; "Job Hunting"] eq_refl).
  intros t _. apply identity_mapping_default.
Defined.


Lemma untagged_batch_ignores_unification_reply_witness :
  ∃ enriched w1 w2,
    enrich_loop scripted repair [authored_post] [] (start [])
    = (Ok enriched, w1)
    ∧ Forall (λ r, py_iter (get_tags r) = Ok []) enriched
    ∧ enrich_batch scripted repair [authored_post] (start [])
      = (Ok ((λ r, <["tags" := JArr []]> r) <$> enriched), w2).
Proof.
  assert (∃ enriched w1,
             enrich_loop scripted repair [authored_post] [] (start [])
             = (Ok enriched, w1)
             ∧ Forall (λ r, py_iter (get_tags r) = Ok []) enriched)
    as (enriched & w1 & Hloop & Hall).
  { eexists _, _. split; [vm_compute; reflexivity |].
    constructor; [vm_compute; reflexivity | constructor]. }
  destruct (untagged_batch_ignores_unification_reply scripted repair
              [authored_post] (start []) enriched w1 Hloop Hall)
    as (w2 & Hbatch & _).
  exists enriched, w1, w2. auto.
Defined.


Lemma well_formed_replies_complete_the_batch_witness :
  ∃ out w',
    enrich_batch canned repair [authored_post; textless_post]
      (World 0 [] [] []) = (Ok out, w')
    ∧ length out = length (filter has_text [authored_post; textless_post]).
Proof.
  apply (well_formed_replies_complete_the_batch canned repair).
  - intros text st. simpl. eexists _, ["Career"]. split; reflexivity.
  - intros tags st. simpl. eexists. reflexivity.
  - constructor; [|constructor; [|constructor]].
    + intros v Hv. vm_compute in Hv. injection Hv as <-. eexists. reflexivity.
    + intros v Hv. vm_compute in Hv. discriminate.
Defined.

Lemma output_records_have_text_and_tag_list_witness :
  ∃ out w',
    enrich_batch scripted repair [authored_post]
      (start [Parsed (JObj ∅); Parsed (JObj ∅)]) = (Ok out, w')
    ∧ Forall (λ r, has_text r ∧ ∃ new_tags, r !! "tags" = Some (JArr new_tags))
        out.
Proof.
  eexists _, _. split; [vm_compute; reflexivity |].
  exact (output_records_have_text_and_tag_list scripted repair [authored_post]
           (start [Parsed (JObj ∅); Parsed (JObj ∅)]) _ _ eq_refl).
Defined.

Lemma repair_failure_aborts_run_witness :
  disk [authored_post; numeric_text_post] raw_path
  = Ok ([authored_post] ++ numeric_text_post :: [])
  ∧ enrich_loop scripted repair [authored_post] []
      (start [Parsed (good_metadata "Job Search")])
    = (Ok [enriched_authored_post "Job Search"], World [] [extract_call] [] [])
  ∧ numeric_text_post !! "text" = Some (JInt 5)
  ∧ repair (JInt 5) = Raised TypeError
  ∧ run [Parsed (good_metadata "Job Search")] [authored_post; numeric_text_post]
    = (Raised TypeError, World [] [extract_call] [] []).
Proof.
  assert (enrich_loop scripted repair [authored_post] []
            (start [Parsed (good_metadata "Job Search")])
          = (Ok [enriched_authored_post "Job Search"],
             World [] [extract_call] [] [])) as Hloop
    by (vm_compute; reflexivity).
  split; [reflexivity |]. split; [exact Hloop |]. split; [reflexivity |].
  split; [reflexivity |].
  apply (repair_failure_aborts_run scripted repair
           (disk [authored_post; numeric_text_post]) writable
           raw_path processed_path [authored_post] numeric_text_post []
           (JInt 5) (start [Parsed (good_metadata "Job Search")])
           _ _ TypeError eq_refl Hloop eq_refl eq_refl).
Defined.

(** * The program's own chain *)

(** Both templates are well-formed format strings, so
    [PromptTemplate.from_template] (lines 62 and 107, outside the [try]
    blocks) does not raise.  The extraction template has the one
    variable [post]; the unification template has two, because the
    braces of its line "4. Format: ..." are not doubled: the quoted
    ["OldTag1"] and [tags]. *)
Lemma templates_parse :
  (∃ pt, from_template extract_template = Ok pt
         ∧ template_variables pt = ["post"])
  ∧ (∃ pt, from_template unify_template = Ok pt
           ∧ template_variables pt = [dq +:+ "OldTag1" +:+ dq; "tags"]).
Proof.
  split; eexists; (split; [vm_compute; reflexivity |]); vm_compute; reflexivity.
Qed.

Section ChainProperties.

Context {L : Type}.
Variable format_value : option ascii → string → string → result string.
Variable llm : string → L → reply * L.
Variable fix_text : json → result string.
Variable json_load : string → result (list post).
Variable json_dump : string → list post → option exn.

Lemma format_prompt_extract (text : string) :
  format_prompt format_value (ExtractRequest text)
  = Ok (extract_intro +:+ text +:+ extract_outro).
Proof. vm_compute. reflexivity. Qed.

Lemma format_prompt_unify (tags : string) :
  format_prompt format_value (UnifyRequest tags) = Raised KeyError.
Proof. vm_compute. reflexivity. Qed.

Lemma chain_extract (text : string) (st : L * list string) :
  chain format_value llm (ExtractRequest text) st
  = ((llm (extract_intro +:+ text +:+ extract_outro) st.1).1,
     ((llm (extract_intro +:+ text +:+ extract_outro) st.1).2,
      st.2 ++ [extract_intro +:+ text +:+ extract_outro])).
Proof.
  unfold chain. rewrite format_prompt_extract.
  destruct (llm (extract_intro +:+ text +:+ extract_outro) st.1). reflexivity.
Qed.

Lemma chain_unify (tags : string) (st : L * list string) :
  chain format_value llm (UnifyRequest tags) st = (Failed KeyError, st).
Proof. unfold chain. rewrite format_prompt_unify. reflexivity. Qed.

Lemma get_unified_tags_chain posts (w : @world (L * list string)) X :
  collect_tags ∅ posts = Ok X →
  get_unified_tags (chain format_value llm) posts w
  = (Ok (JObj (identity_mapping X)),
     World (svc w) (calls w ++ [UnifyRequest (unique_tags_list X)])
       (stdout w ++ [UnifyUnexpectedDiagnostic KeyError]) (written w)).
Proof.
  intros HX. unfold get_unified_tags, bind, lift, invoke.
  rewrite HX, chain_unify. reflexivity.
Qed.

(** X18: with the program's unification template the prompt of the
    unification request can never be formed: [chain.invoke] raises
    [KeyError] before the completion service is reached.  So
    [get_unified_tags] never calls the completion service: when the tags
    can be collected it prints the unexpected-error diagnostic and
    returns the identity mapping, and otherwise it raises [TypeError]. *)
Theorem unification_prompt_never_forms posts (w : @world (L * list string)) :
  match collect_tags ∅ posts with
  | Ok X =>
      get_unified_tags (chain format_value llm) posts w
      = (Ok (JObj (identity_mapping X)),
         World (svc w) (calls w ++ [UnifyRequest (unique_tags_list X)])
           (stdout w ++ [UnifyUnexpectedDiagnostic KeyError]) (written w))
  | Raised _ =>
      get_unified_tags (chain format_value llm) posts w = (Raised TypeError, w)
  end.
Proof.
  destruct (collect_tags ∅ posts) as [X|e] eqn:HX.
  - apply get_unified_tags_chain. exact HX.
  - rewrite (get_unified_tags_collect_raised _ _ _ _ HX).
    rewrite (collect_tags_raised _ _ _ HX). reflexivity.
Qed.

(** C1: on the empty batch [extract_metadata] is not invoked, and the
    one use of the chain by [get_unified_tags] raises while the prompt
    is formed; no prompt reaches the completion service, whose state is
    left as it was.  The enriched batch is empty and, when the output
    can be written, it is written as the empty batch. *)
Theorem empty_batch_reaches_no_service
    raw_file_path processed_file_path (w : @world (L * list string)) :
  json_load raw_file_path = Ok [] →
  ∃ w1 w2,
    get_unified_tags (chain format_value llm) [] w
    = (Ok (JObj (identity_mapping ∅)), w1)
    ∧ svc w1 = svc w
    ∧ enrich_batch (chain format_value llm) fix_text [] w = (Ok [], w1)
    ∧ process_posts (chain format_value llm) fix_text json_load json_dump
        raw_file_path processed_file_path w = (Ok tt, w2)
    ∧ svc w2 = svc w
    ∧ prompts_sent w2 = prompts_sent w
    ∧ calls w2 = calls w ++ [UnifyRequest ""]
    ∧ (json_dump processed_file_path [] = None →
       written w2 = written w ++ [(processed_file_path, [])]).
Proof.
  intros Hload.
  pose proof (get_unified_tags_chain [] w ∅ eq_refl) as Hunify.
  rewrite unique_tags_list_empty in Hunify.
  assert (enrich_batch (chain format_value llm) fix_text [] w
          = (Ok [], World (svc w) (calls w ++ [UnifyRequest ""])
                      (stdout w ++ [UnifyUnexpectedDiagnostic KeyError])
                      (written w))) as Hbatch.
  { unfold enrich_batch, bind, lift. simpl enrich_loop. unfold ret.
    rewrite Hunify. reflexivity. }
  destruct (json_dump processed_file_path []) as [e|] eqn:Hdump.
  - eexists _, _. split; [exact Hunify |]. split; [reflexivity |].
    split; [exact Hbatch |].
    unfold process_posts. rewrite Hload. unfold bind. rewrite Hbatch.
    unfold save. rewrite Hdump.
    split; [reflexivity |]. split; [reflexivity |]. split; [reflexivity |].
    split; [reflexivity | discriminate].
  - eexists _, _. split; [exact Hunify |]. split; [reflexivity |].
    split; [exact Hbatch |].
    unfold process_posts. rewrite Hload. unfold bind. rewrite Hbatch.
    unfold save. rewrite Hdump.
    split; [reflexivity |]. split; [reflexivity |]. split; [reflexivity |].
    split; [reflexivity |]. intros _. reflexivity.
Qed.

Lemma enrich_loop_prompts posts acc (w : @world (L * list string)) out w' :
  enrich_loop (chain format_value llm) fix_text posts acc w = (Ok out, w') →
  ∃ texts,
    Forall2 (λ p text, ∃ v, p !! "text" = Some v ∧ fix_text v = Ok text)
      (filter has_text posts) texts
    ∧ prompts_sent w'
      = prompts_sent w
          ++ ((λ text, extract_intro +:+ truncate text +:+ extract_outro)
                <$> texts).
Proof.
  revert acc w. induction posts as [|p posts IH]; intros acc w H.
  - simpl in H. injection H as _ <-. exists []. split; [constructor |].
    simpl. rewrite app_nil_r. reflexivity.
  - destruct (enrich_post (chain format_value llm) fix_text p w)
      as [[[r|]|e] w1] eqn:Hp.
    + rewrite (enrich_loop_step_some _ _ _ _ _ _ _ _ Hp) in H.
      destruct (IH _ _ H) as (texts & Hall & Hsent).
      destruct (enrich_post_some_run_inv _ _ _ _ _ _ Hp)
        as (v & text & fields & Hv & Hfix & Hmd & _).
      apply extract_metadata_svc in Hmd. rewrite chain_extract in Hmd.
      exists (text :: texts). split.
      * rewrite filter_cons_True by (unfold has_text; rewrite Hv; eauto).
        constructor; [eauto | exact Hall].
      * rewrite Hsent. unfold prompts_sent. rewrite Hmd. simpl.
        rewrite <- app_assoc. reflexivity.
    + rewrite (enrich_loop_step_none _ _ _ _ _ _ _ Hp) in H.
      destruct (enrich_post_none_inv _ _ _ _ _ Hp) as [Htext ->].
      destruct (IH _ _ H) as (texts & Hall & Hsent).
      exists texts. split; [|exact Hsent].
      rewrite filter_cons_False by exact Htext. exact Hall.
    + rewrite (enrich_loop_step_raised _ _ _ _ _ _ _ _ Hp) in H. discriminate.
Qed.

(** X1: a batch that completes has sent one prompt to the completion
    service for each post with a text, in the order of the batch, each
    being the extraction template filled with the truncated repaired
    text, and none for the unification: N prompts for N posts with a
    text, out of N + 1 uses of the chain. *)
Theorem completed_batch_prompts_service_once_per_post
    posts (w : @world (L * list string)) out w' :
  enrich_batch (chain format_value llm) fix_text posts w = (Ok out, w') →
  ∃ texts,
    Forall2 (λ p text, ∃ v, p !! "text" = Some v ∧ fix_text v = Ok text)
      (filter has_text posts) texts
    ∧ prompts_sent w'
      = prompts_sent w
          ++ ((λ text, extract_intro +:+ truncate text +:+ extract_outro)
                <$> texts)
    ∧ length (prompts_sent w')
      = (length (prompts_sent w) + length (filter has_text posts))%nat
    ∧ length (calls w')
      = (length (calls w) + length (filter has_text posts) + 1)%nat.
Proof.
  intros H.
  destruct (enrich_batch_inv _ _ _ _ _ _ H)
    as (enriched & w1 & u & Hloop & Hunify & _).
  destruct (enrich_loop_prompts _ _ _ _ _ Hloop) as (texts & Hall & Hsent).
  apply get_unified_tags_svc in Hunify.
  assert (svc w' = svc w1) as Hsvc.
  { destruct (collect_tags ∅ enriched); [|exact Hunify].
    rewrite chain_unify in Hunify. exact Hunify. }
  assert (prompts_sent w'
          = prompts_sent w
              ++ ((λ text, extract_intro +:+ truncate text +:+ extract_outro)
                    <$> texts)) as Heq.
  { unfold prompts_sent in *. rewrite Hsvc. exact Hsent. }
  exists texts. split; [exact Hall |]. split; [exact Heq |]. split.
  - rewrite Heq, length_app, length_fmap, (Forall2_length _ _ _ Hall).
    reflexivity.
  - destruct (completed_batch_invokes_chain_per_post_then_once _ _ _ _ _ _ H)
      as (_ & _ & _ & _ & Hlen). exact Hlen.
Qed.

End ChainProperties.

(** ** The revised properties on concrete runs *)

Lemma empty_batch_reaches_no_service_witness :
  disk [] raw_path = Ok []
  ∧ ∃ w2,
      process_posts (chain plain_format scripted_llm) repair (disk []) writable
        raw_path processed_path (chain_start [Parsed (JObj ∅)])
      = (Ok tt, w2)
      ∧ svc w2 = ([Parsed (JObj ∅)], [])
      ∧ written w2 = [(processed_path, [])].
Proof.
  split; [reflexivity |].
  destruct (empty_batch_reaches_no_service plain_format scripted_llm repair
              (disk []) writable raw_path processed_path
              (chain_start [Parsed (JObj ∅)]) eq_refl)
    as (w1 & w2 & _ & _ & _ & Hrun & Hsvc & _ & _ & Hwritten).
  exists w2. split; [exact Hrun |]. split; [exact Hsvc |].
  apply Hwritten. reflexivity.
Defined.

Lemma original_fields_outside_metadata_preserved_witness :
  authored_post !! "text" = Some (JStr "Great tips on job search!")
  ∧ ∃ out w',
      enrich_batch scripted repair ([textless_post] ++ authored_post :: [])
        (start [Parsed overreaching_metadata; Parsed (JObj ∅)])
      = (Ok out, w')
      ∧ ∃ text fields w1 w2 r,
          extract_metadata scripted text w1 = (Ok (JObj fields), w2)
          ∧ out !! 0 = Some r
          ∧ ∀ k, k ≠ "tags" → fields !! k = None →
                 r !! k = (<["text" := JStr text]> authored_post) !! k.
Proof.
  split; [reflexivity |].
  assert (∃ out w',
             enrich_batch scripted repair
               ([textless_post] ++ authored_post :: [])
               (start [Parsed overreaching_metadata; Parsed (JObj ∅)])
             = (Ok out, w')) as (out & w' & Hbatch)
    by (eexists _, _; vm_compute; reflexivity).
  exists out, w'. split; [exact Hbatch |].
  destruct (original_fields_outside_metadata_preserved scripted repair
              [textless_post] authored_post []
              (JStr "Great tips on job search!")
              (start [Parsed overreaching_metadata; Parsed (JObj ∅)])
              out w' Hbatch eq_refl)
    as (acc & w1 & text & fields & w2 & r & Hfront & _ & Hmd & _ & Hr & Hkeep & _).
  vm_compute in Hfront. injection Hfront as <- _.
  exists text, fields, w1, w2, r. split; [exact Hmd |]. split; [exact Hr |].
  exact Hkeep.
Defined.

Lemma extracted_fields_override_post_fields_witness :
  authored_post !! "text" = Some (JStr "Great tips on job search!")
  ∧ ∃ out w',
      enrich_batch scripted repair ([] ++ authored_post :: [])
        (start [Parsed overreaching_metadata; Parsed (JObj ∅)])
      = (Ok out, w')
      ∧ ∃ text fields w1 w2 r,
          extract_metadata scripted text w1 = (Ok (JObj fields), w2)
          ∧ out !! 0 = Some r
          ∧ ∀ k x, k ≠ "tags" → fields !! k = Some x → r !! k = Some x.
Proof.
  split; [reflexivity |].
  assert (∃ out w',
             enrich_batch scripted repair ([] ++ authored_post :: [])
               (start [Parsed overreaching_metadata; Parsed (JObj ∅)])
             = (Ok out, w')) as (out & w' & Hbatch)
    by (eexists _, _; vm_compute; reflexivity).
  exists out, w'. split; [exact Hbatch |].
  destruct (extracted_fields_override_post_fields scripted repair
              [] authored_post [] (JStr "Great tips on job search!")
              (start [Parsed overreaching_metadata; Parsed (JObj ∅)])
              out w' Hbatch eq_refl)
    as (acc & w1 & text & fields & w2 & r & Hfront & _ & Hmd & Hr & Hwin).
  vm_compute in Hfront. injection Hfront as <- _.
  exists text, fields, w1, w2, r. split; [exact Hmd |]. split; [exact Hr |].
  exact Hwin.
Defined.

Lemma completed_batch_prompts_service_once_per_post_witness :
  ∃ out w',
    enrich_batch (chain plain_format scripted_llm) repair
      [authored_post; textless_post; authored_post]
      (chain_start [Parsed (good_metadata "Jobseekers");
                    Parsed (good_metadata "Job Hunting")])
    = (Ok out, w')
    ∧ length (prompts_sent w') = 2
    ∧ length (calls w') = 3.
Proof.
  assert (∃ out w',
             enrich_batch (chain plain_format scripted_llm) repair
               [authored_post; textless_post; authored_post]
               (chain_start [Parsed (good_metadata "Jobseekers");
                             Parsed (good_metadata "Job Hunting")])
             = (Ok out, w')) as (out & w' & Hbatch)
    by (eexists _, _; vm_compute; reflexivity).
  exists out, w'. split; [exact Hbatch |].
  destruct (completed_batch_prompts_service_once_per_post plain_format
              scripted_llm repair
              [authored_post; textless_post; authored_post]
              (chain_start [Parsed (good_metadata "Jobseekers");
                            Parsed (good_metadata "Job Hunting")])
              out w' Hbatch)
    as (texts & _ & _ & Hsent & Hcalls).
  split; [exact Hsent | exact Hcalls].
Defined.

Lemma write_failure_is_reported_not_raised_witness :
  disk [authored_post] raw_path = Ok [authored_post]
  ∧ ∃ out w1 w',
      enrich_batch scripted repair [authored_post]
        (start [Parsed (good_metadata "Job Search")]) = (Ok out, w1)
      ∧ read_only processed_path out = Some (OtherException "PermissionError")
      ∧ process_posts scripted repair (disk [authored_post]) read_only
          raw_path processed_path (start [Parsed (good_metadata "Job Search")])
        = (Ok tt, w')
      ∧ stdout w'
        = stdout w1 ++ [SaveErrorDiagnostic (OtherException "PermissionError")].
Proof.
  split; [reflexivity |].
  assert (∃ out w1,
             enrich_batch scripted repair [authored_post]
               (start [Parsed (good_metadata "Job Search")]) = (Ok out, w1))
    as (out & w1 & Hbatch) by (eexists _, _; vm_compute; reflexivity).
  destruct (write_failure_is_reported_not_raised scripted repair
              (disk [authored_post]) read_only raw_path processed_path
              (start [Parsed (good_metadata "Job Search")]) [authored_post]
              out w1 (OtherException "PermissionError") eq_refl Hbatch eq_refl)
    as (w' & Hrun & Hstdout & _).
  exists out, w1, w'. repeat split; assumption.
Defined.

Lemma raising_run_never_reaches_the_write_witness :
  ∃ w',
    run [Parsed (JArr [])] [authored_post] = (Raised TypeError, w')
    ∧ written w' = [].
Proof.
  assert (∃ w', run [Parsed (JArr [])] [authored_post] = (Raised TypeError, w'))
    as (w' & Hrun) by (eexists; vm_compute; reflexivity).
  exists w'. split; [exact Hrun |].
  exact (proj2 (raising_run_never_reaches_the_write scripted repair
                  (disk [authored_post]) writable raw_path processed_path
                  (start [Parsed (JArr [])]) TypeError w' Hrun)).
Defined.
